(** * ClangImporter::Implementation: session state of the Clang importer

    A shallow embedding of [lib/ClangImporter/ImporterImpl.h]: the data
    members of [ClangImporter::Implementation] that make up the import
    session (identity map, generation counter, extension caches, delayed
    conformances, ...) and the member functions the header defines inline.
    Member functions the header only declares are embedded from their
    specification and are marked as such. *)

From Stdlib Require Import ZArith.
From stdpp Require Import gmap list strings.

Local Open Scope Z_scope.

(** ** Machine-level conventions *)

(** Every [T *] of the header is an address; a null pointer is address 0. *)
Abbreviation ptr := N.
Definition nullptr : ptr := 0%N.

(** [unsigned] is a 32-bit integer on every target this code is built for;
    arithmetic on it wraps around. *)
Definition UINT_WIDTH : Z := 32.
Definition UINT_MAX : Z := 2 ^ UINT_WIDTH - 1.
Definition wrap (z : Z) : Z := z mod 2 ^ UINT_WIDTH.
(** [++x] on an [unsigned]. *)
Definition incr (z : Z) : Z := wrap (z + 1).
(** [--x] on an [unsigned]. *)
Definition decr (z : Z) : Z := wrap (z - 1).
Definition is_unsigned (z : Z) : Prop := 0 <= z <= UINT_MAX.

(** [llvm::DenseMap] is declared outside this header.  A dense map sets two
    values of its key type aside, the empty key and the tombstone key, to
    mark the buckets that hold no entry; the header spells this protocol out
    for a key type of its own in [EnumConstantDenseMapInfo]
    ([getEmptyKey], [getTombstoneKey]).  For [unsigned] keys the two values
    are [~0U] and [~0U - 1].  Neither can be stored as a key: the map's
    bucket lookup asserts against them, and without the assertion it takes
    the key for a vacant bucket. *)
Definition DenseMap_EmptyKey : Z := UINT_MAX.
Definition DenseMap_TombstoneKey : Z := UINT_MAX - 1.
Definition DenseMap_reserved (key : Z) : bool :=
  (key =? DenseMap_EmptyKey) || (key =? DenseMap_TombstoneKey).
Arguments DenseMap_reserved : simpl never.

(** Outcome of running a member function.  [AssertionFailure] is a failed
    [assert] (a detected programming error); [Undefined] is C++ undefined
    behaviour, about which the language promises nothing. *)
Inductive Exec (A : Type) : Type :=
| Done (a : A)
| AssertionFailure
| Undefined.
Arguments Done {A} a.
Arguments AssertionFailure {A}.
Arguments Undefined {A}.

Definition Exec_bind {A B} (m : Exec A) (k : A -> Exec B) : Exec B :=
  match m with
  | Done a => k a
  | AssertionFailure => AssertionFailure
  | Undefined => Undefined
  end.

(** ** Enumerations of the header *)

(** [Implementation::EnumKind]. *)
Inductive EnumKind : Type :=
| Enum       (* all of the cases are independent *)
| Options    (* the constants are combinations of independent flags *)
| Unknown    (* a distinct type whose constants have unknown semantics *)
| Constants. (* the constants map to plain integer values *)

(** [Implementation::CacheState]. *)
Inductive CacheState : Type :=
| Invalid
| InProgress
| Valid.

(** [CtorInitializerKind] is declared outside this header, which uses its
    member [Designated] as the default of [ImportedName::InitKind]. *)
Inductive CtorInitializerKind : Type :=
| Designated
| Convenience
| ConvenienceFactory
| Factory.

(** ** [CachedExtensions] *)

Module CachedExtensions.

(** [Extensions] is an owning pointer to a vector of extension
    declarations; [None] is the null pointer. *)
Record t : Type := mk {
  Extensions : option (list ptr);
  Generation : Z
}.

(** [CachedExtensions() : Extensions(nullptr), Generation(0) { }] *)
Definition default : t := {| Extensions := None; Generation := 0 |}.

(** [CachedExtensions(CachedExtensions &&other)]: the pair of the newly
    constructed object and what is left in [other]. *)
Definition move_construct (other : t) : t * t :=
  ({| Extensions := Extensions other; Generation := Generation other |},
   {| Extensions := None; Generation := 0 |}).

(** [operator=(CachedExtensions &&other)]: the old vector of [self] is
    deleted; the pair of the assigned object and what is left in [other]. *)
Definition move_assign (self other : t) : t * t :=
  ({| Extensions := Extensions other; Generation := Generation other |},
   {| Extensions := None; Generation := 0 |}).

(** A fresh entry: default-constructed, or what a move leaves behind. *)
Inductive fresh : t -> Prop :=
| fresh_default : fresh default
| fresh_moved_from other :
    fresh (snd (move_construct other))
| fresh_move_assigned_from self other :
    fresh (snd (move_assign self other)).

End CachedExtensions.

(** ** [ImportedName] *)

(** [swift::Identifier]: an interned string; the empty identifier is the
    default one. *)
Abbreviation Identifier := string.

(** Modelled from the spec: [swift::DeclName] is declared outside this
    header.  A host name is a bare identifier or a structured call name (base
    name plus ordered argument labels); the default-constructed name is the
    empty identifier, and it is the only name that converts to false. *)
Inductive DeclName : Type :=
| SimpleName (name : Identifier)
| CompoundName (base : Identifier) (args : list Identifier).

Definition DeclName_default : DeclName := SimpleName "".

Definition DeclName_bool (n : DeclName) : bool :=
  match n with
  | SimpleName name => negb (String.eqb name "")
  | CompoundName _ _ => true
  end.

(** [ForeignErrorConvention::Kind] and [IsOwned_t] are opaque tags here. *)
Record ImportedErrorInfo : Type := {
  Kind : N;
  IsOwned : bool;
  ParamIndex : Z;
  ReplaceParamWithVoid : bool
}.

Record ImportedName : Type := {
  Imported : DeclName;
  Alias : DeclName;
  HasCustomName : bool;
  DroppedVariadic : bool;
  IsSubscriptAccessor : bool;
  InitKind : CtorInitializerKind;
  ErrorInfo : option ImportedErrorInfo
}.

(** The implicit default constructor with the default member initialisers. *)
Definition ImportedName_default : ImportedName := {|
  Imported := DeclName_default;
  Alias := DeclName_default;
  HasCustomName := false;
  DroppedVariadic := false;
  IsSubscriptAccessor := false;
  InitKind := Designated;
  ErrorInfo := None
|}.

(** [operator DeclName() const { return Imported; }] *)
Definition ImportedName_DeclName (n : ImportedName) : DeclName := Imported n.

(** [explicit operator bool() const { return static_cast<bool>(Imported); }] *)
Definition ImportedName_bool (n : ImportedName) : bool :=
  DeclName_bool (Imported n).

(** ** The session: data members of [ClangImporter::Implementation] *)

(** [swift::ASTContext] is owned by the host compiler and declared outside
    this header; the session only holds a reference to it and asks it to bump
    its own generation. *)
Class HostContext (ASTContext : Type) : Type := {
  (* ASTContext::bumpGeneration() *)
  ASTContext_bumpGeneration : ASTContext -> ASTContext;
  (* the host is told about a declaration the importer produced *)
  ASTContext_addExternalDecl : ptr -> ASTContext -> ASTContext;
  (* the host completes a conformance that was waiting for its witnesses *)
  ASTContext_finishConformance : ptr -> ASTContext -> ASTContext
}.

Section Session.

Context `{Host : HostContext ASTContext}.

Record Implementation : Type := mkImplementation {
  SwiftContext : ASTContext;
  (* llvm::PointerIntPair<LazyResolver *, 1, bool> *)
  typeResolver : ptr * bool;
  (* llvm::DenseMap<const clang::Decl *, Decl *> *)
  ImportedDecls : gmap N N;
  (* SmallVector<ValueDecl *, 0> *)
  CachedVisibleDecls : list ptr;
  CurrentCacheState : CacheState;
  (* unsigned Generation = 1 *)
  Generation : Z;
  (* llvm::DenseMap<ClassDecl *, CachedExtensions> *)
  ClassExtensions : gmap N CachedExtensions.t;
  (* llvm::DenseMap<Decl *, ValueDecl *> *)
  AlternateDecls : gmap N N;
  (* SmallVector<Decl *, 4> *)
  RegisteredExternalDecls : list ptr;
  (* SmallVector<NormalProtocolConformance *, 4> *)
  DelayedProtocolConformances : list ptr;
  (* unsigned NumCurrentImportingEntities = 0 *)
  NumCurrentImportingEntities : Z;
  (* llvm::DenseMap<unsigned, SmallVector<ProtocolConformance *, 4>> *)
  DelayedConformances : gmap Z (list N);
  (* unsigned NextDelayedConformanceID = 0 *)
  NextDelayedConformanceID : Z;
  (* llvm::DenseMap<const Decl *, SmallVector<ProtocolDecl *, 4>> *)
  ImportedProtocols : gmap N (list N)
}.

(** The state right after construction: the default member initialisers of
    the header, every container empty. *)
Definition initial (ctx : ASTContext) : Implementation := {|
  SwiftContext := ctx;
  typeResolver := (nullptr, false);
  ImportedDecls := ∅;
  CachedVisibleDecls := [];
  CurrentCacheState := Invalid;
  Generation := 1;
  ClassExtensions := ∅;
  AlternateDecls := ∅;
  RegisteredExternalDecls := [];
  DelayedProtocolConformances := [];
  NumCurrentImportingEntities := 0;
  DelayedConformances := ∅;
  NextDelayedConformanceID := 0;
  ImportedProtocols := ∅
|}.

(** *** Field updates *)

Definition set_SwiftContext (v : ASTContext) (s : Implementation) :=
  mkImplementation v (typeResolver s) (ImportedDecls s)
    (CachedVisibleDecls s) (CurrentCacheState s) (Generation s)
    (ClassExtensions s) (AlternateDecls s) (RegisteredExternalDecls s)
    (DelayedProtocolConformances s) (NumCurrentImportingEntities s)
    (DelayedConformances s) (NextDelayedConformanceID s)
    (ImportedProtocols s).

Definition set_typeResolver (v : ptr * bool) (s : Implementation) :=
  mkImplementation (SwiftContext s) v (ImportedDecls s)
    (CachedVisibleDecls s) (CurrentCacheState s) (Generation s)
    (ClassExtensions s) (AlternateDecls s) (RegisteredExternalDecls s)
    (DelayedProtocolConformances s) (NumCurrentImportingEntities s)
    (DelayedConformances s) (NextDelayedConformanceID s)
    (ImportedProtocols s).

Definition set_ImportedDecls (v : gmap N N) (s : Implementation) :=
  mkImplementation (SwiftContext s) (typeResolver s) v
    (CachedVisibleDecls s) (CurrentCacheState s) (Generation s)
    (ClassExtensions s) (AlternateDecls s) (RegisteredExternalDecls s)
    (DelayedProtocolConformances s) (NumCurrentImportingEntities s)
    (DelayedConformances s) (NextDelayedConformanceID s)
    (ImportedProtocols s).

Definition set_ClassExtensions (v : gmap N CachedExtensions.t)
    (s : Implementation) :=
  mkImplementation (SwiftContext s) (typeResolver s) (ImportedDecls s)
    (CachedVisibleDecls s) (CurrentCacheState s) (Generation s)
    v (AlternateDecls s) (RegisteredExternalDecls s)
    (DelayedProtocolConformances s) (NumCurrentImportingEntities s)
    (DelayedConformances s) (NextDelayedConformanceID s)
    (ImportedProtocols s).

Definition set_AlternateDecls (v : gmap N N) (s : Implementation) :=
  mkImplementation (SwiftContext s) (typeResolver s) (ImportedDecls s)
    (CachedVisibleDecls s) (CurrentCacheState s) (Generation s)
    (ClassExtensions s) v (RegisteredExternalDecls s)
    (DelayedProtocolConformances s) (NumCurrentImportingEntities s)
    (DelayedConformances s) (NextDelayedConformanceID s)
    (ImportedProtocols s).

Definition set_RegisteredExternalDecls (v : list ptr) (s : Implementation) :=
  mkImplementation (SwiftContext s) (typeResolver s) (ImportedDecls s)
    (CachedVisibleDecls s) (CurrentCacheState s) (Generation s)
    (ClassExtensions s) (AlternateDecls s) v
    (DelayedProtocolConformances s) (NumCurrentImportingEntities s)
    (DelayedConformances s) (NextDelayedConformanceID s)
    (ImportedProtocols s).

Definition set_DelayedProtocolConformances (v : list ptr)
    (s : Implementation) :=
  mkImplementation (SwiftContext s) (typeResolver s) (ImportedDecls s)
    (CachedVisibleDecls s) (CurrentCacheState s) (Generation s)
    (ClassExtensions s) (AlternateDecls s) (RegisteredExternalDecls s)
    v (NumCurrentImportingEntities s)
    (DelayedConformances s) (NextDelayedConformanceID s)
    (ImportedProtocols s).

Definition set_NumCurrentImportingEntities (v : Z) (s : Implementation) :=
  mkImplementation (SwiftContext s) (typeResolver s) (ImportedDecls s)
    (CachedVisibleDecls s) (CurrentCacheState s) (Generation s)
    (ClassExtensions s) (AlternateDecls s) (RegisteredExternalDecls s)
    (DelayedProtocolConformances s) v
    (DelayedConformances s) (NextDelayedConformanceID s)
    (ImportedProtocols s).

Definition set_DelayedConformances (v : gmap Z (list N))
    (s : Implementation) :=
  mkImplementation (SwiftContext s) (typeResolver s) (ImportedDecls s)
    (CachedVisibleDecls s) (CurrentCacheState s) (Generation s)
    (ClassExtensions s) (AlternateDecls s) (RegisteredExternalDecls s)
    (DelayedProtocolConformances s) (NumCurrentImportingEntities s)
    v (NextDelayedConformanceID s)
    (ImportedProtocols s).

Definition set_NextDelayedConformanceID (v : Z) (s : Implementation) :=
  mkImplementation (SwiftContext s) (typeResolver s) (ImportedDecls s)
    (CachedVisibleDecls s) (CurrentCacheState s) (Generation s)
    (ClassExtensions s) (AlternateDecls s) (RegisteredExternalDecls s)
    (DelayedProtocolConformances s) (NumCurrentImportingEntities s)
    (DelayedConformances s) v
    (ImportedProtocols s).

Definition set_ImportedProtocols (v : gmap N (list N))
    (s : Implementation) :=
  mkImplementation (SwiftContext s) (typeResolver s) (ImportedDecls s)
    (CachedVisibleDecls s) (CurrentCacheState s) (Generation s)
    (ClassExtensions s) (AlternateDecls s) (RegisteredExternalDecls s)
    (DelayedProtocolConformances s) (NumCurrentImportingEntities s)
    (DelayedConformances s) (NextDelayedConformanceID s)
    v.

(** ** Member functions defined in the header *)

(** [[
  void bumpGeneration() {
    ++Generation;
    SwiftContext.bumpGeneration();
    CachedVisibleDecls.clear();
    CurrentCacheState = CacheState::Invalid;
  }
]] *)
Definition bumpGeneration (s : Implementation) : Implementation :=
  mkImplementation (ASTContext_bumpGeneration (SwiftContext s))
    (typeResolver s) (ImportedDecls s)
    [] Invalid (incr (Generation s))
    (ClassExtensions s) (AlternateDecls s) (RegisteredExternalDecls s)
    (DelayedProtocolConformances s) (NumCurrentImportingEntities s)
    (DelayedConformances s) (NextDelayedConformanceID s)
    (ImportedProtocols s).

(** The stamp of an entry is the "generation number used to tell when this
    cache has gone stale": the entry is current when the stamp equals the
    generation of the session. *)
Definition upToDate (cache : CachedExtensions.t) (s : Implementation) : Prop :=
  CachedExtensions.Generation cache = Generation s.

(** [[
  ValueDecl *getAlternateDecl(Decl *decl) {
    auto known = AlternateDecls.find(decl);
    if (known == AlternateDecls.end()) return nullptr;
    return known->second;
  }
]] *)
Definition getAlternateDecl (decl : ptr) (s : Implementation)
    : ptr * Implementation :=
  match AlternateDecls s !! decl with
  | None => (nullptr, s)
  | Some second => (second, s)
  end.

(** [void registerExternalDecl(Decl *D)] *)
Definition registerExternalDecl (D : ptr) (s : Implementation) :=
  set_RegisteredExternalDecls (RegisteredExternalDecls s ++ [D]) s.

(** [void scheduleFinishProtocolConformance(NormalProtocolConformance *C)] *)
Definition scheduleFinishProtocolConformance (C : ptr) (s : Implementation) :=
  set_DelayedProtocolConformances (DelayedProtocolConformances s ++ [C]) s.

(** [LazyResolver *getTypeResolver() const] *)
Definition getTypeResolver (s : Implementation) : ptr := fst (typeResolver s).

(** [[
  void setTypeResolver(LazyResolver *newResolver) {
    assert((!typeResolver.getPointer() || !newResolver) &&
           "already have a type resolver");
    typeResolver.setPointerAndInt(newResolver, true);
  }
]]
    The assertion is taken as compiled in. *)
Definition setTypeResolver (newResolver : ptr) (s : Implementation)
    : Exec Implementation :=
  if N.eqb (getTypeResolver s) nullptr || N.eqb newResolver nullptr
  then Done (set_typeResolver (newResolver, true) s)
  else AssertionFailure.

(** [bool hasBegunTypeChecking() const] *)
Definition hasBegunTypeChecking (s : Implementation) : bool :=
  snd (typeResolver s).

(** [bool hasFinishedTypeChecking() const] *)
Definition hasFinishedTypeChecking (s : Implementation) : bool :=
  hasBegunTypeChecking s && N.eqb (getTypeResolver s) nullptr.

(** [[
  unsigned allocateDelayedConformance(
             SmallVector<ProtocolConformance *, 4> &&conformances) {
    unsigned id = NextDelayedConformanceID++;
    DelayedConformances[id] = std::move(conformances);
    return id;
  }
]]
    [DelayedConformances] is a [llvm::DenseMap<unsigned, ...>]:
    [operator[]] on one of its two reserved keys is not a defined operation
    of the map. *)
Definition allocateDelayedConformance (conformances : list ptr)
    (s : Implementation) : Exec (Z * Implementation) :=
  let id := NextDelayedConformanceID s in
  let s := set_NextDelayedConformanceID (incr id) s in
  if DenseMap_reserved id then Undefined
  else
    let s := set_DelayedConformances
               (<[id := conformances]> (DelayedConformances s)) s in
    Done (id, s).

(** [[
  SmallVector<ProtocolConformance *, 4> takeDelayedConformance(unsigned id) {
    auto conformances = DelayedConformances.find(id);
    SmallVector<ProtocolConformance *, 4> result
      = std::move(conformances->second);
    DelayedConformances.erase(conformances);
    return result;
  }
]]
    [find] yields the end iterator for an absent key; the function
    dereferences whatever [find] returned, without comparing it to [end()]. *)
Definition takeDelayedConformance (id : Z) (s : Implementation)
    : Exec (list ptr * Implementation) :=
  match DelayedConformances s !! id with
  | None => Undefined
  | Some second =>
      Done (second,
            set_DelayedConformances (delete id (DelayedConformances s)) s)
  end.

(** [[
  void recordImportedProtocols(const Decl *decl,
                               ArrayRef<ProtocolDecl *> protocols) {
    if (protocols.empty())
      return;
    auto &recorded = ImportedProtocols[decl];
    recorded.insert(recorded.end(), protocols.begin(), protocols.end());
  }
]] *)
Definition recordImportedProtocols (decl : ptr) (protocols : list ptr)
    (s : Implementation) : Implementation :=
  match protocols with
  | [] => s
  | _ =>
      let recorded := default [] (ImportedProtocols s !! decl) in
      set_ImportedProtocols
        (<[decl := recorded ++ protocols]> (ImportedProtocols s)) s
  end.

(** [[
  SmallVector<ProtocolDecl *, 4> takeImportedProtocols(const Decl *decl) {
    SmallVector<ProtocolDecl *, 4> result;
    auto known = ImportedProtocols.find(decl);
    if (known != ImportedProtocols.end()) {
      result = std::move(known->second);
      ImportedProtocols.erase(known);
    }
    return result;
  }
]] *)
Definition takeImportedProtocols (decl : ptr) (s : Implementation)
    : list ptr * Implementation :=
  match ImportedProtocols s !! decl with
  | Some second =>
      (second, set_ImportedProtocols (delete decl (ImportedProtocols s)) s)
  | None => ([], s)
  end.

(** ** A session as a sequence of calls

    The calls on the session whose whole body is in the header
    ([bumpGeneration], [getAlternateDecl], [registerExternalDecl],
    [scheduleFinishProtocolConformance], [setTypeResolver],
    [allocateDelayedConformance], [takeDelayedConformance],
    [recordImportedProtocols], [takeImportedProtocols]), and direct stores
    into the public maps [ImportedDecls] and [AlternateDecls].  The inline
    wrappers [importDecl] and [importDeclReal] and the guard
    [ImportingEntityRAII] are not among them: they run
    [importDeclAndCacheImpl] and [finishPendingActions], whose bodies are
    not in the header, and are treated separately below. *)

Inductive Op : Type :=
| OpBumpGeneration
| OpGetAlternateDecl (decl : ptr)
| OpRegisterExternalDecl (D : ptr)
| OpScheduleFinishProtocolConformance (C : ptr)
| OpSetTypeResolver (newResolver : ptr)
| OpAllocateDelayedConformance (conformances : list ptr)
| OpTakeDelayedConformance (id : Z)
| OpRecordImportedProtocols (decl : ptr) (protocols : list ptr)
| OpTakeImportedProtocols (decl : ptr)
| OpStoreImportedDecl (ClangDecl : ptr) (D : ptr)
| OpStoreAlternateDecl (decl : ptr) (alternate : ptr).

(** What a call hands back to its caller. *)
Inductive Ret : Type :=
| RetVoid
| RetPtr (p : ptr)
| RetId (id : Z)
| RetList (l : list ptr).

Definition step (op : Op) (s : Implementation) : Exec (Ret * Implementation) :=
  match op with
  | OpBumpGeneration => Done (RetVoid, bumpGeneration s)
  | OpGetAlternateDecl decl =>
      let '(r, s') := getAlternateDecl decl s in Done (RetPtr r, s')
  | OpRegisterExternalDecl D => Done (RetVoid, registerExternalDecl D s)
  | OpScheduleFinishProtocolConformance C =>
      Done (RetVoid, scheduleFinishProtocolConformance C s)
  | OpSetTypeResolver r =>
      Exec_bind (setTypeResolver r s) (fun s' => Done (RetVoid, s'))
  | OpAllocateDelayedConformance l =>
      Exec_bind (allocateDelayedConformance l s)
        (fun '(id, s') => Done (RetId id, s'))
  | OpTakeDelayedConformance id =>
      Exec_bind (takeDelayedConformance id s)
        (fun '(l, s') => Done (RetList l, s'))
  | OpRecordImportedProtocols decl protocols =>
      Done (RetVoid, recordImportedProtocols decl protocols s)
  | OpTakeImportedProtocols decl =>
      let '(l, s') := takeImportedProtocols decl s in Done (RetList l, s')
  | OpStoreImportedDecl c d =>
      Done (RetVoid, set_ImportedDecls (<[c := d]> (ImportedDecls s)) s)
  | OpStoreAlternateDecl d a =>
      Done (RetVoid, set_AlternateDecls (<[d := a]> (AlternateDecls s)) s)
  end.

(** Runs the calls in order; the returned values come out in call order. *)
Fixpoint run (ops : list Op) (s : Implementation)
    : Exec (list Ret * Implementation) :=
  match ops with
  | [] => Done ([], s)
  | op :: ops =>
      Exec_bind (step op s) (fun '(r, s') =>
      Exec_bind (run ops s') (fun '(rs, s'') => Done (r :: rs, s'')))
  end.

Definition is_bump (op : Op) : bool :=
  match op with OpBumpGeneration => true | _ => false end.

Definition is_allocate (op : Op) : bool :=
  match op with OpAllocateDelayedConformance _ => true | _ => false end.

Definition is_take_of (id : Z) (op : Op) : bool :=
  match op with OpTakeDelayedConformance id' => Z.eqb id id' | _ => false end.

(** Number of calls in [ops] that satisfy [p], as an integer. *)
Definition count (p : Op -> bool) (ops : list Op) : Z :=
  Z.of_nat (length (filter (fun op => p op = true) ops)).

(** The ticket ids handed out by the allocations of a run. *)
Fixpoint ticket_ids (rs : list Ret) : list Z :=
  match rs with
  | [] => []
  | RetId id :: rs => id :: ticket_ids rs
  | _ :: rs => ticket_ids rs
  end.

(** [n] generation bumps in a row, and [n] ticket allocations in a row. *)
Definition bumpMany (n : N) (s : Implementation) : Implementation :=
  N.iter n bumpGeneration s.

Definition allocateMany (n : N) (s : Implementation) : Exec Implementation :=
  N.iter n
    (fun m => Exec_bind m (fun s =>
              Exec_bind (allocateDelayedConformance [] s)
                (fun '(_, s') => Done s')))
    (Done s).

End Session.

Arguments Implementation : clear implicits.
(** ** Member functions the header only declares *)

(** The parts of the importer whose bodies live in other files, and the
    queries answered by the foreign AST. *)
Class DeclImporter (ASTContext : Type) : Type := {
  (* the foreign declaration a transparent import resolves to: the end of
     the chain of superfluous typedefs that starts at the given declaration,
     the declaration itself when it is not a superfluous typedef *)
  getUnderlyingDecl : ptr -> ptr;
  (* [importDeclImpl]: runs the name and type importers on a foreign
     declaration and builds the host declaration; null when the declaration
     cannot be represented *)
  importDeclImpl :
    ptr -> Implementation ASTContext -> ptr * Implementation ASTContext;
  (* [importAttributes(ClangDecl, MappedDecl)]: decorates the host
     declaration, which lives in the host context *)
  importAttributes : ptr -> ptr -> ASTContext -> ASTContext;
  (* the extensions of a class, rebuilt from its foreign categories *)
  loadExtensions : ptr -> list ptr
}.

Section Declared.

Context `{Host : HostContext ASTContext}.
Context `{Importer : !DeclImporter ASTContext}.

Local Abbreviation State := (Implementation ASTContext).

(** Modelled from the spec: [startedImportingEntity] is only declared in the
    header.  An entry point that may import recursively increments the
    import depth on entry. *)
Definition startedImportingEntity (s : State) : State :=
  set_NumCurrentImportingEntities (incr (NumCurrentImportingEntities s)) s.

(** Modelled from the spec: [finishPendingActions] is only declared in the
    header.  It drains, in the order queued, the declarations not yet
    announced to the host and the conformances queued for completion, then
    clears both lists. *)
Definition finishPendingActions (s : State) : State :=
  let ctx := foldl (fun c D => ASTContext_addExternalDecl D c)
                   (SwiftContext s) (RegisteredExternalDecls s) in
  let ctx := foldl (fun c C => ASTContext_finishConformance C c)
                   ctx (DelayedProtocolConformances s) in
  set_DelayedProtocolConformances []
    (set_RegisteredExternalDecls [] (set_SwiftContext ctx s)).

(** Modelled from the spec: [finishedImportingEntity] is only declared in
    the header.  Every exit path decrements the import depth, and the
    transition from 1 to 0 runs the queued actions. *)
Definition finishedImportingEntity (s : State) : State :=
  let s := set_NumCurrentImportingEntities
             (decr (NumCurrentImportingEntities s)) s in
  if NumCurrentImportingEntities s =? 0 then finishPendingActions s else s.

(** Modelled from the spec: [importDeclCached] is only declared in the
    header.  It is the cache check: if the declaration was already imported,
    the corresponding host declaration, otherwise null (so reads the comment
    on its declaration, too). *)
Definition importDeclCached (ClangDecl : ptr) (s : State) : ptr :=
  default nullptr (ImportedDecls s !! ClangDecl).

(** The foreign declaration a request is keyed by: a transparent request on
    a superfluous typedef is a request for the underlying declaration. *)
Definition requestKey (ClangDecl : ptr)
    (SuperfluousTypedefsAreTransparent : bool) : ptr :=
  if SuperfluousTypedefsAreTransparent then getUnderlyingDecl ClangDecl
  else ClangDecl.

(** Modelled from the spec: [importDeclAndCacheImpl] is only declared in the
    header.  A transparent request on a superfluous typedef resolves to the
    underlying declaration, a non-transparent one keeps the alias itself;
    then: check the cache; on a miss run the name and type importers,
    register the result in the identity map, import the attributes, return.
    The import depth is raised on entry and lowered on every exit path.
    (The in-progress marker of the specification exists only while
    [importDeclImpl] runs, so it is not part of the state between calls.) *)
Definition importDeclAndCacheImpl (ClangDecl : ptr)
    (SuperfluousTypedefsAreTransparent : bool) (s : State) : ptr * State :=
  let Canon := requestKey ClangDecl SuperfluousTypedefsAreTransparent in
  let s := startedImportingEntity s in
  let Known := importDeclCached Canon s in
  if negb (N.eqb Known nullptr) then (Known, finishedImportingEntity s)
  else
    let '(Result, s) := importDeclImpl Canon s in
    if N.eqb Result nullptr then (nullptr, finishedImportingEntity s)
    else
      let s := set_ImportedDecls (<[Canon := Result]> (ImportedDecls s)) s in
      let s := set_SwiftContext
                 (importAttributes Canon Result (SwiftContext s)) s in
      (Result, finishedImportingEntity s).

(** [[
  Decl *importDecl(const clang::NamedDecl *ClangDecl) {
    return importDeclAndCacheImpl(ClangDecl,
                                  /*SuperfluousTypedefsAreTransparent=*/true);
  }
]] *)
Definition importDecl (ClangDecl : ptr) (s : State) : ptr * State :=
  importDeclAndCacheImpl ClangDecl true s.

(** [[
  Decl *importDeclReal(const clang::NamedDecl *ClangDecl) {
    return importDeclAndCacheImpl(ClangDecl,
                                  /*SuperfluousTypedefsAreTransparent=*/false);
  }
]] *)
Definition importDeclReal (ClangDecl : ptr) (s : State) : ptr * State :=
  importDeclAndCacheImpl ClangDecl false s.

(** The two assumptions under which a failed import is repeatable: whether
    a foreign declaration can be represented does not depend on the session,
    and a failed import registers nothing for the declaration. *)
Definition failures_are_stable : Prop :=
  (forall D s s', fst (importDeclImpl D s) = nullptr ->
                  fst (importDeclImpl D s') = nullptr) /\
  (forall D s, fst (importDeclImpl D s) = nullptr ->
               importDeclCached D (snd (importDeclImpl D s))
               = importDeclCached D s).

(** What a cache-bypassing import would be: the importers are run whatever
    the identity map holds, and the map is left as the importers left it. *)
Definition importBypassingCache (ClangDecl : ptr) (s : State) : ptr * State :=
  importDeclImpl ClangDecl s.

(** Modelled from the spec: the lookup of a class's extensions is not in the
    header.  The entry of the class (a default-constructed one when the map
    has none) is valid only if its stamp equals the current generation; the
    list is rebuilt from the foreign categories, and stamped, only when the
    stamp is stale.  The result is the vector pointer the entry then holds. *)
Definition classExtensions (class : ptr) (s : State)
    : option (list ptr) * State :=
  let cache := default CachedExtensions.default (ClassExtensions s !! class) in
  if CachedExtensions.Generation cache =? Generation s
  then (CachedExtensions.Extensions cache, s)
  else
    let rebuilt := CachedExtensions.mk (Some (loadExtensions class))
                     (Generation s) in
    (CachedExtensions.Extensions rebuilt,
     set_ClassExtensions (<[class := rebuilt]> (ClassExtensions s)) s).

End Declared.

(** ** Selectors *)

Module SelectorBridge.

(** [clang::Selector] is declared outside this header.  A foreign selector
    is the number of arguments it takes and its pieces: one piece per
    argument, or exactly one piece for a selector that takes none (a unary
    selector). *)
Record Selector : Type := mkSelector {
  numArgs : nat;
  pieces : list Identifier
}.



(** Modelled from the spec: [swift::ObjCSelector] is declared outside this
    header.  It is the host's value for an Objective-C selector, which
    [exportSelector(ObjCSelector)] has to turn back into the very selector
    it was imported from: like the foreign selector, it holds the number of
    arguments and the pieces. *)
Record ObjCSelector : Type := mkObjCSelector {
  getNumArgs : nat;
  getSelectorPieces : list Identifier
}.

(** Modelled from the spec: [ObjCSelector importSelector(clang::Selector)]
    is only declared in the header.  Every piece becomes a host identifier;
    the number of arguments is kept. *)
Definition importSelector (sel : Selector) : ObjCSelector :=
  mkObjCSelector (numArgs sel) (pieces sel).


(** Modelled from the spec: the structured call name of a selector.  The
    base name is the first piece.  There is one argument label per
    argument: the first argument has the empty label, as its piece is the
    base name, and the further labels are the subsequent pieces.  A unary
    selector has zero labels: its name is the bare identifier. *)
Definition structuredName (selector : ObjCSelector) : DeclName :=
  match getSelectorPieces selector with
  | [] => DeclName_default
  | first :: subsequent =>
      if Nat.eqb (getNumArgs selector) 0 then SimpleName first
      else CompoundName first ("" :: subsequent)
  end.

(** Modelled from the spec: [clang::Selector exportSelector(DeclName name,
    bool allowSimpleName = true)] is only declared in the header.  The
    inverse direction: the base name becomes the first piece and every
    argument label after the first a further piece.  A name with no argument
    labels gives the unary selector made of the base name, also when
    [allowSimpleName] is false. *)
Definition exportSelector (name : DeclName) (allowSimpleName : bool)
    : Selector :=
  match name with
  | SimpleName base => mkSelector 0 [base]
  | CompoundName base [] => mkSelector 0 [base]
  | CompoundName base (_ :: labels) =>
      mkSelector (S (length labels)) (base :: labels)
  end.

End SelectorBridge.

(** ** Enumeration kinds *)

Module EnumClassifier.

(** The explicit annotation an enumeration is declared with, found through
    the preprocessor that [classifyEnum] takes: a bit-flag macro or
    attribute, or a closed-enumeration annotation. *)
Inductive EnumAnnotation : Type :=
| BitFlagAnnotation
| ClosedAnnotation.

(** What the classification looks at in a foreign enumeration. *)
Record EnumDecl : Type := mkEnumDecl {
  (* the explicit annotation of the declaration, if it has one *)
  annotation : option EnumAnnotation;
  (* the type name follows the recognised naming convention of option sets *)
  hasOptionsLikeName : bool;
  (* the values of the constants, in declaration order *)
  enumerators : list Z
}.

Definition isPowerOfTwo (z : Z) : bool :=
  (0 <? z) && (Z.land z (z - 1) =? 0).

(** The bits of the constants of the enumeration that are powers of two. *)
Definition flagBits (cs : list Z) : Z :=
  foldr Z.lor 0 (filter (fun z => isPowerOfTwo z = true) cs).

(** A constant is flag-like if it is a power of two or a combination of the
    power-of-two constants of its enumeration. *)
Definition flagLike (cs : list Z) (z : Z) : bool :=
  isPowerOfTwo z || ((0 <? z) && (Z.land z (flagBits cs) =? z)).

Definition allFlagLike (cs : list Z) : bool :=
  match cs with
  | [] => false
  | _ => forallb (flagLike cs) cs
  end.

Definition followsOptionsConvention (e : EnumDecl) : bool :=
  hasOptionsLikeName e || allFlagLike (enumerators e).

(** Modelled from the spec: [classifyEnum] is only declared in the header.
    An explicit annotation decides: a bit-flag annotation gives an option
    set, a closed annotation an enum of cases.  Without one, the recognised
    convention (an options-like type name, or constants that are all powers
    of two or combinations of them) gives an option set.  Otherwise the
    semantics of the constants are not known, and the answer is the kind
    the header documents for that case, [EnumKind::Unknown]: a distinct
    type whose constants are conservatively mapped to independent
    constants. *)
Definition classifyEnum (e : EnumDecl) : EnumKind :=
  match annotation e with
  | Some BitFlagAnnotation => Options
  | Some ClosedAnnotation => Enum
  | None => if followsOptionsConvention e then Options else Unknown
  end.

End EnumClassifier.

(** ** A concrete session used in examples

    The host context numbers the declarations it creates from address 1 and
    counts its own generations.  Foreign declaration 20 is a superfluous
    typedef of declaration 10; foreign declaration 13 cannot be
    represented. *)

Record ExampleHost : Type := mkExampleHost {
  hostGeneration : Z;
  lastDecl : N;
  announced : list ptr
}.

Definition exampleHostContext : HostContext ExampleHost := {|
  ASTContext_bumpGeneration c :=
    mkExampleHost (incr (hostGeneration c)) (lastDecl c) (announced c);
  ASTContext_addExternalDecl D c :=
    mkExampleHost (hostGeneration c) (lastDecl c) (announced c ++ [D]);
  ASTContext_finishConformance C c := c
|}.

Definition exampleImporter : DeclImporter ExampleHost := {|
  getUnderlyingDecl D := if N.eqb D 20 then 10%N else D;
  importDeclImpl D s :=
    if N.eqb D 13 then (nullptr, s)
    else
      let c := SwiftContext s in
      let address := N.succ (lastDecl c) in
      (address,
       set_SwiftContext
         (mkExampleHost (hostGeneration c) address (announced c)) s);
  importAttributes ClangDecl MappedDecl c := c;
  loadExtensions class := [(class + 1000)%N]
|}.

Definition exampleSession : Implementation ExampleHost :=
  initial (mkExampleHost 0 0 []).

(** A short session: two bumps around an allocation. *)
Definition exampleOps : list Op :=
  [OpBumpGeneration; OpAllocateDelayedConformance [8%N]; OpBumpGeneration].

(** The concrete session after two direct stores: foreign declaration 10 is
    known as host declaration 1, whose alternate is declaration 2. *)
Definition exampleStoredSession : Implementation ExampleHost :=
  set_AlternateDecls {[1%N := 2%N]}
    (set_ImportedDecls {[10%N := 1%N]} exampleSession).

(** A longer session that touches every table of the session. *)
Definition exampleCalls : list Op :=
  [OpRecordImportedProtocols 3 [10%N; 11%N];
   OpRegisterExternalDecl 30;
   OpSetTypeResolver 9;
   OpAllocateDelayedConformance [40%N];
   OpRecordImportedProtocols 4 [20%N];
   OpScheduleFinishProtocolConformance 50;
   OpRecordImportedProtocols 3 [];
   OpBumpGeneration;
   OpAllocateDelayedConformance [41%N];
   OpRegisterExternalDecl 31;
   OpTakeDelayedConformance 0;
   OpRecordImportedProtocols 3 [12%N];
   OpTakeImportedProtocols 4].

(** ** Reading a session *)

(** What a sequence of calls records, registers and schedules. *)
Fixpoint recordedProtocols (decl : ptr) (ops : list Op) : list ptr :=
  match ops with
  | [] => []
  | OpRecordImportedProtocols d protocols :: ops =>
      (if N.eqb d decl then protocols else []) ++ recordedProtocols decl ops
  | _ :: ops => recordedProtocols decl ops
  end.

Fixpoint registeredDecls (ops : list Op) : list ptr :=
  match ops with
  | [] => []
  | OpRegisterExternalDecl D :: ops => D :: registeredDecls ops
  | _ :: ops => registeredDecls ops
  end.

Fixpoint scheduledConformances (ops : list Op) : list ptr :=
  match ops with
  | [] => []
  | OpScheduleFinishProtocolConformance C :: ops =>
      C :: scheduledConformances ops
  | _ :: ops => scheduledConformances ops
  end.

Definition is_take_protocols_of (decl : ptr) (op : Op) : bool :=
  match op with OpTakeImportedProtocols d => N.eqb d decl | _ => false end.

Definition is_store (op : Op) : bool :=
  match op with
  | OpStoreImportedDecl _ _ | OpStoreAlternateDecl _ _ => true
  | _ => false
  end.

Definition is_take (op : Op) : bool :=
  match op with OpTakeDelayedConformance _ => true | _ => false end.

Definition Exec_map {A B} (f : A -> B) (m : Exec A) : Exec B :=
  Exec_bind m (fun a => Done (f a)).

Section Sequences.

Context {ASTContext : Type}.

(** Redeeming ticket [a] and then ticket [b]. *)
Definition takeBoth (a b : Z) (s : Implementation ASTContext)
    : Exec (list ptr * list ptr * Implementation ASTContext) :=
  Exec_bind (takeDelayedConformance a s) (fun '(la, s1) =>
  Exec_bind (takeDelayedConformance b s1) (fun '(lb, s2) =>
  Done (la, lb, s2))).

(** The three stages of type checking as the session sees them. *)
Inductive TypeCheckingStage : Type :=
| NotBegun
| Checking
| Finished.

Definition typeCheckingStage (s : Implementation ASTContext)
    : TypeCheckingStage :=
  if hasFinishedTypeChecking s then Finished
  else if hasBegunTypeChecking s then Checking
  else NotBegun.

(** A session holds a resolver only after type checking has begun. *)
Definition resolverConsistent (s : Implementation ASTContext) : Prop :=
  getTypeResolver s <> nullptr -> hasBegunTypeChecking s = true.

(** The pending tickets after [n] allocations: [n] has not reached the
    reserved keys, the counter is [n] and every key of the table is below
    [n]. *)
Definition ticketsBelow (n : Z) (s : Implementation ASTContext) : Prop :=
  0 <= n <= UINT_MAX - 1 /\
  NextDelayedConformanceID s = n /\
  (forall id, is_Some (DelayedConformances s !! id) -> 0 <= id < n).

End Sequences.

(** ** [CachedExtensions] objects in memory

    The special members of [CachedExtensions] manage an owning raw pointer.
    Here the objects live at addresses, so that the two operands of a move
    may be the same object, and the vectors they point to live in a heap, so
    that [delete] has something to free. *)

Module ExtensionMemory.

(** A [CachedExtensions] object: the address of its vector (0 for null) and
    its generation stamp. *)
Record Object : Type := mkObject {
  Extensions : ptr;
  Generation : Z
}.

Record Memory : Type := mkMemory {
  (* the constructed [CachedExtensions] objects, by address *)
  objects : gmap N Object;
  (* the live vectors of extension declarations, by address *)
  vectors : gmap N (list ptr)
}.

(** [delete p]: nothing for a null pointer, frees a live vector; deleting
    an address that holds no live vector is undefined. *)
Definition delete_vector (p : ptr) (m : Memory) : Exec Memory :=
  if N.eqb p nullptr then Done m
  else
    match vectors m !! p with
    | Some _ => Done (mkMemory (objects m) (delete p (vectors m)))
    | None => Undefined
    end.

(** Reading and writing the members of the object at an address; an
    address that holds no object is undefined. *)
Definition read (a : ptr) (m : Memory) : Exec Object :=
  match objects m !! a with
  | Some o => Done o
  | None => Undefined
  end.

Definition set_Extensions (a : ptr) (p : ptr) (m : Memory) : Exec Memory :=
  Exec_bind (read a m) (fun o =>
  Done (mkMemory (<[a := mkObject p (Generation o)]> (objects m)) (vectors m))).

Definition set_Generation (a : ptr) (g : Z) (m : Memory) : Exec Memory :=
  Exec_bind (read a m) (fun o =>
  Done (mkMemory (<[a := mkObject (Extensions o) g]> (objects m)) (vectors m))).

(** [CachedExtensions() : Extensions(nullptr), Generation(0) { }], building
    the object at address [self]. *)
Definition construct (self : ptr) (m : Memory) : Exec Memory :=
  Done (mkMemory (<[self := mkObject nullptr 0]> (objects m)) (vectors m)).

(** [[
  CachedExtensions(CachedExtensions &&other)
    : Extensions(other.Extensions), Generation(other.Generation)
  {
    other.Extensions = nullptr;
    other.Generation = 0;
  }
]] *)
Definition move_construct (self other : ptr) (m : Memory) : Exec Memory :=
  Exec_bind (read other m) (fun o =>
  let m := mkMemory (<[self := mkObject (Extensions o) (Generation o)]>
                       (objects m)) (vectors m) in
  Exec_bind (set_Extensions other nullptr m) (fun m =>
  set_Generation other 0 m)).

(** [[
  CachedExtensions &operator=(CachedExtensions &&other) {
    delete Extensions;
    Extensions = other.Extensions;
    Generation = other.Generation;
    other.Extensions = nullptr;
    other.Generation = 0;
    return *this;
  }
]] *)
Definition move_assign (self other : ptr) (m : Memory) : Exec Memory :=
  Exec_bind (read self m) (fun o =>
  Exec_bind (delete_vector (Extensions o) m) (fun m =>
  Exec_bind (read other m) (fun o' =>
  Exec_bind (set_Extensions self (Extensions o') m) (fun m =>
  Exec_bind (read other m) (fun o' =>
  Exec_bind (set_Generation self (Generation o') m) (fun m =>
  Exec_bind (set_Extensions other nullptr m) (fun m =>
  set_Generation other 0 m))))))).

(** [~CachedExtensions() { delete Extensions; }], after which the object is
    gone. *)
Definition destroy (self : ptr) (m : Memory) : Exec Memory :=
  Exec_bind (read self m) (fun o =>
  Exec_bind (delete_vector (Extensions o) m) (fun m =>
  Done (mkMemory (delete self (objects m)) (vectors m)))).

(** The heap after [delete p]. *)
Definition freed (p : ptr) (vs : gmap N (list ptr)) : gmap N (list ptr) :=
  if N.eqb p nullptr then vs else delete p vs.

(** The vector an object points to, if it points to a live one. *)
Definition contents (a : ptr) (m : Memory) : option (list ptr) :=
  match objects m !! a with
  | Some o => if N.eqb (Extensions o) nullptr then None
              else vectors m !! Extensions o
  | None => None
  end.

(** Every vector has exactly one owner: a non-null [Extensions] points to a
    live vector, no two objects point to the same vector, and every live
    vector is pointed to by some object. *)
Definition owned (m : Memory) : Prop :=
  (forall a o, objects m !! a = Some o -> Extensions o <> nullptr ->
               is_Some (vectors m !! Extensions o)) /\
  (forall a b oa ob, objects m !! a = Some oa -> objects m !! b = Some ob ->
                     Extensions oa <> nullptr ->
                     Extensions oa = Extensions ob -> a = b) /\
  (forall p v, vectors m !! p = Some v ->
               p <> nullptr /\
               exists a o, objects m !! a = Some o /\ Extensions o = p).

(** Two objects, one of which owns the vector [[7; 8]] at address 100. *)
Definition exampleMemory : Memory :=
  mkMemory {[ 1%N := mkObject 100 5; 2%N := mkObject nullptr 0 ]}
           {[ 100%N := [7%N; 8%N] ]}.

End ExtensionMemory.

(** * Properties *)

(** ** 32-bit arithmetic *)

Lemma UINT_MAX_eq : UINT_MAX = 4294967295.
Proof. reflexivity. Qed.

Lemma wrap_unsigned z : is_unsigned (wrap z).
Proof.
  unfold is_unsigned, wrap, UINT_MAX, UINT_WIDTH.
  pose proof (Z.mod_pos_bound z (2 ^ 32) ltac:(lia)). lia.
Qed.

Lemma wrap_id z : is_unsigned z -> wrap z = z.
Proof.
  unfold is_unsigned, wrap, UINT_MAX, UINT_WIDTH. intros Hz.
  apply Z.mod_small. lia.
Qed.

Lemma wrap_add_l a b : wrap (wrap a + b) = wrap (a + b).
Proof. unfold wrap. apply Zplus_mod_idemp_l. Qed.

Lemma incr_below z : is_unsigned z -> z <> UINT_MAX -> incr z = z + 1.
Proof.
  unfold incr, is_unsigned. rewrite UINT_MAX_eq. intros Hz Hne.
  apply wrap_id. unfold is_unsigned. rewrite UINT_MAX_eq. lia.
Qed.

Lemma incr_at_max : incr UINT_MAX = 0.
Proof. reflexivity. Qed.

(** The keys a [DenseMap<unsigned, ...>] accepts are those below 2^32 - 2. *)
Lemma DenseMap_reserved_below k :
  k < UINT_MAX - 1 -> DenseMap_reserved k = false.
Proof.
  unfold DenseMap_reserved, DenseMap_EmptyKey, DenseMap_TombstoneKey.
  rewrite UINT_MAX_eq. lia.
Qed.

Lemma DenseMap_reserved_above k :
  is_unsigned k -> UINT_MAX - 1 <= k -> DenseMap_reserved k = true.
Proof.
  unfold DenseMap_reserved, DenseMap_EmptyKey, DenseMap_TombstoneKey,
    is_unsigned.
  rewrite UINT_MAX_eq. lia.
Qed.

Lemma DenseMap_reserved_false k :
  is_unsigned k -> DenseMap_reserved k = false -> k < UINT_MAX - 1.
Proof.
  unfold DenseMap_reserved, DenseMap_EmptyKey, DenseMap_TombstoneKey,
    is_unsigned.
  rewrite UINT_MAX_eq. lia.
Qed.

(** Two 32-bit values that differ by less than 2^32 and are congruent are
    equal; so [k] increments return to the start only for [k] a multiple of
    2^32. *)
Lemma wrap_add_cycle z k :
  is_unsigned z -> 0 < k <= UINT_MAX -> wrap (z + k) <> z.
Proof.
  unfold is_unsigned, wrap, UINT_WIDTH. rewrite UINT_MAX_eq.
  intros Hz Hk Heq.
  destruct (Z_lt_ge_dec (z + k) (2 ^ 32)) as [Hlt | Hge].
  - rewrite Z.mod_small in Heq by lia. lia.
  - assert (Hm : (z + k) mod 2 ^ 32 = z + k - 2 ^ 32).
    { symmetry. apply (Z.mod_unique _ _ 1); lia. }
    lia.
Qed.

(** ** Generation bumps *)

Section SessionProperties.

Context `{Host : HostContext ASTContext}.

Implicit Types s : Implementation ASTContext.

Lemma bumpMany_succ n s :
  bumpMany (N.succ n) s = bumpGeneration (bumpMany n s).
Proof. unfold bumpMany. apply N.iter_succ. Qed.

Lemma bumpMany_Generation n s :
  is_unsigned (Generation s) ->
  Generation (bumpMany n s) = wrap (Generation s + Z.of_N n).
Proof.
  intros Hs. induction n as [| n IH] using N.peano_ind.
  - cbn. rewrite Z.add_0_r. symmetry. by apply wrap_id.
  - rewrite bumpMany_succ. cbn [bumpGeneration Generation].
    rewrite IH. unfold incr. rewrite wrap_add_l. f_equal. lia.
Qed.

Lemma bumpMany_ImportedDecls n s :
  ImportedDecls (bumpMany n s) = ImportedDecls s.
Proof.
  induction n as [| n IH] using N.peano_ind; [done |].
  rewrite bumpMany_succ. cbn. exact IH.
Qed.

(** C4 (as amended).  A generation bump adds one to [Generation] modulo
    2^32: the counter grows by exactly one unless it holds the largest
    32-bit value, from which it wraps to 0.  The bump empties
    [CachedVisibleDecls] and sets [CurrentCacheState] to [Invalid].  It
    leaves [ImportedDecls] and [AlternateDecls], with every entry stored in
    them, and the other maps and queues of the session unchanged. *)
Theorem bumpGeneration_frame s :
  is_unsigned (Generation s) ->
  (Generation s <> UINT_MAX ->
     Generation (bumpGeneration s) = Generation s + 1 /\
     Generation s < Generation (bumpGeneration s)) /\
  (Generation s = UINT_MAX -> Generation (bumpGeneration s) = 0) /\
  is_unsigned (Generation (bumpGeneration s)) /\
  CachedVisibleDecls (bumpGeneration s) = [] /\
  CurrentCacheState (bumpGeneration s) = Invalid /\
  ImportedDecls (bumpGeneration s) = ImportedDecls s /\
  AlternateDecls (bumpGeneration s) = AlternateDecls s /\
  (forall D d, ImportedDecls s !! D = Some d ->
               ImportedDecls (bumpGeneration s) !! D = Some d) /\
  (forall d a, AlternateDecls s !! d = Some a ->
               AlternateDecls (bumpGeneration s) !! d = Some a) /\
  ClassExtensions (bumpGeneration s) = ClassExtensions s /\
  DelayedConformances (bumpGeneration s) = DelayedConformances s /\
  NextDelayedConformanceID (bumpGeneration s) = NextDelayedConformanceID s /\
  ImportedProtocols (bumpGeneration s) = ImportedProtocols s /\
  RegisteredExternalDecls (bumpGeneration s) = RegisteredExternalDecls s /\
  DelayedProtocolConformances (bumpGeneration s)
    = DelayedProtocolConformances s /\
  NumCurrentImportingEntities (bumpGeneration s)
    = NumCurrentImportingEntities s /\
  typeResolver (bumpGeneration s) = typeResolver s.
Proof.
  intros Hs. cbn [bumpGeneration Generation CachedVisibleDecls
    CurrentCacheState ImportedDecls AlternateDecls ClassExtensions
    DelayedConformances NextDelayedConformanceID ImportedProtocols
    RegisteredExternalDecls DelayedProtocolConformances
    NumCurrentImportingEntities typeResolver].
  split.
  { intros Hne. rewrite incr_below by done. lia. }
  split.
  { intros ->. apply incr_at_max. }
  split.
  { apply wrap_unsigned. }
  repeat split; auto.
Qed.

(** ** Alternate declarations *)

(** C9.  [getAlternateDecl] is a pure query.  It returns null when
    [AlternateDecls] has no entry for the declaration and the stored
    pointer when it has one; so the result is null exactly when no
    (non-null) alternate declaration is recorded.  The session it returns
    is the session it was given. *)
Theorem getAlternateDecl_pure_query decl s :
  snd (getAlternateDecl decl s) = s /\
  (AlternateDecls s !! decl = None ->
     fst (getAlternateDecl decl s) = nullptr) /\
  (forall alternate, AlternateDecls s !! decl = Some alternate ->
     fst (getAlternateDecl decl s) = alternate) /\
  (fst (getAlternateDecl decl s) = nullptr <->
     ~ exists alternate, alternate <> nullptr /\
                         AlternateDecls s !! decl = Some alternate).
Proof.
  unfold getAlternateDecl.
  destruct (AlternateDecls s !! decl) as [a |] eqn:Hl; cbn.
  - repeat split; try done.
    + intros alternate [= ->]. done.
    + intros -> (a' & Hne & [= <-]). done.
    + intros Hno. destruct (decide (a = nullptr)) as [-> | Hne]; [done |].
      exfalso. apply Hno. by exists a.
  - repeat split; try done.
    intros _ (a & _ & [=]).
Qed.

End SessionProperties.

(** ** Sessions as runs *)

Section RunProperties.

Context `{Host : HostContext ASTContext}.

Implicit Types s : Implementation ASTContext.

Lemma count_nil p : count p [] = 0.
Proof. reflexivity. Qed.

Lemma count_cons p op ops :
  count p (op :: ops) = (if p op then 1 else 0) + count p ops.
Proof.
  unfold count. rewrite filter_cons.
  destruct (p op); case_decide; try done; cbn [length]; lia.
Qed.

Lemma count_nonneg p ops : 0 <= count p ops.
Proof. unfold count. lia. Qed.

Lemma count_app p ops1 ops2 :
  count p (ops1 ++ ops2) = count p ops1 + count p ops2.
Proof.
  unfold count. rewrite filter_app, length_app. lia.
Qed.

Ltac step_cases op s Hstep :=
  destruct op; cbn in Hstep;
  repeat match type of Hstep with
  | context [getAlternateDecl ?d ?s] =>
      unfold getAlternateDecl in Hstep;
      destruct (AlternateDecls s !! d); cbn in Hstep
  | context [setTypeResolver ?r ?s] =>
      unfold setTypeResolver in Hstep;
      destruct (N.eqb (getTypeResolver s) nullptr || N.eqb r nullptr);
      cbn in Hstep
  | context [allocateDelayedConformance ?l ?s] =>
      unfold allocateDelayedConformance in Hstep; cbn in Hstep
  | context [DenseMap_reserved ?k] =>
      destruct (DenseMap_reserved k) eqn:?; cbn in Hstep
  | context [takeDelayedConformance ?i ?s] =>
      unfold takeDelayedConformance in Hstep;
      destruct (DelayedConformances s !! i) eqn:?; cbn in Hstep
  | context [takeImportedProtocols ?d ?s] =>
      unfold takeImportedProtocols in Hstep;
      destruct (ImportedProtocols s !! d); cbn in Hstep
  | context [recordImportedProtocols ?d ?p ?s] =>
      unfold recordImportedProtocols in Hstep; destruct p; cbn in Hstep
  end;
  try discriminate Hstep;
  injection Hstep as <- <-.

(** What one call does to the two private counters, and what it returns. *)
Lemma step_counters op s r s' :
  step op s = Done (r, s') ->
  Generation s' = (if is_bump op then incr (Generation s) else Generation s) /\
  NextDelayedConformanceID s' =
    (if is_allocate op then incr (NextDelayedConformanceID s)
     else NextDelayedConformanceID s) /\
  ticket_ids [r] =
    (if is_allocate op then [NextDelayedConformanceID s] else []).
Proof. intros Hstep. step_cases op s Hstep; done. Qed.

(** A ticket stays in the table across a call that neither redeems it nor
    allocates its id again. *)
Lemma step_keeps_ticket op s r s' id l :
  step op s = Done (r, s') ->
  DelayedConformances s !! id = Some l ->
  is_take_of id op = false ->
  (is_allocate op = true -> NextDelayedConformanceID s <> id) ->
  DelayedConformances s' !! id = Some l.
Proof.
  intros Hstep Hl Htake Halloc. step_cases op s Hstep; cbn; try done.
  - rewrite lookup_insert_ne; [done |]. by apply Halloc.
  - cbn in Htake. rewrite lookup_delete_ne; [done |].
    intros ->. by rewrite Z.eqb_refl in Htake.
Qed.

Lemma run_cons_inv op ops s rets s2 :
  run (op :: ops) s = Done (rets, s2) ->
  exists r s1 rs, step op s = Done (r, s1) /\
                  run ops s1 = Done (rs, s2) /\ rets = r :: rs.
Proof.
  cbn [run]. destruct (step op s) as [[r s1] | |]; cbn [Exec_bind]; try done.
  destruct (run ops s1) as [[rs s2'] | |] eqn:Hrun; cbn [Exec_bind]; try done.
  intros [= <- <-]. exists r, s1, rs. auto.
Qed.

Lemma ticket_ids_cons r rs :
  ticket_ids (r :: rs) = ticket_ids [r] ++ ticket_ids rs.
Proof. by destruct r. Qed.

(** Across a run, each private counter has advanced, modulo 2^32, by the
    number of calls that advance it. *)
Lemma run_counters ops s rets s2 :
  is_unsigned (Generation s) ->
  is_unsigned (NextDelayedConformanceID s) ->
  run ops s = Done (rets, s2) ->
  Generation s2 = wrap (Generation s + count is_bump ops) /\
  NextDelayedConformanceID s2 =
    wrap (NextDelayedConformanceID s + count is_allocate ops).
Proof.
  revert s rets. induction ops as [| op ops IH]; intros s rets Hg Hn Hrun.
  - cbn in Hrun. injection Hrun as <- <-. rewrite !count_nil, !Z.add_0_r.
    by rewrite !wrap_id.
  - apply run_cons_inv in Hrun as (r & s1 & rs & Hstep & Hrun & ->).
    apply step_counters in Hstep as (Hg1 & Hn1 & _).
    apply IH in Hrun as [-> ->].
    + rewrite Hg1, Hn1, !count_cons. unfold incr.
      destruct (is_bump op), (is_allocate op); rewrite ?wrap_add_l;
        split; f_equal; lia.
    + rewrite Hg1. destruct (is_bump op); [apply wrap_unsigned | done].
    + rewrite Hn1. destruct (is_allocate op); [apply wrap_unsigned | done].
Qed.

(** Every ticket id handed out in a run is the counter of the start, plus
    the number of allocations made before it, modulo 2^32. *)
Lemma run_ticket_ids ops s rets s2 id :
  is_unsigned (NextDelayedConformanceID s) ->
  run ops s = Done (rets, s2) ->
  id ∈ ticket_ids rets ->
  exists k, 0 <= k < count is_allocate ops /\
            id = wrap (NextDelayedConformanceID s + k).
Proof.
  revert s rets. induction ops as [| op ops IH]; intros s rets Hn Hrun Hin.
  - cbn in Hrun. injection Hrun as <- <-. cbn in Hin.
    by apply elem_of_nil in Hin.
  - apply run_cons_inv in Hrun as (r & s1 & rs & Hstep & Hrun & ->).
    apply step_counters in Hstep as (_ & Hn1 & Hr).
    rewrite ticket_ids_cons, Hr in Hin. rewrite count_cons.
    pose proof (count_nonneg is_allocate ops) as Hc.
    apply elem_of_app in Hin as [Hin | Hin].
    + destruct (is_allocate op); [| by apply elem_of_nil in Hin].
      apply list_elem_of_singleton in Hin as ->.
      exists 0. split; [lia |]. rewrite Z.add_0_r. symmetry. by apply wrap_id.
    + apply IH in Hrun as (k & Hk & ->); [| | done].
      * rewrite Hn1. destruct (is_allocate op).
        -- exists (k + 1). split; [lia |]. unfold incr.
           rewrite wrap_add_l. f_equal. lia.
        -- exists k. split; [lia | done].
      * rewrite Hn1. destruct (is_allocate op); [apply wrap_unsigned | done].
Qed.

Lemma run_keeps_ticket ops s rets s2 id l :
  is_unsigned (NextDelayedConformanceID s) ->
  run ops s = Done (rets, s2) ->
  DelayedConformances s !! id = Some l ->
  count (is_take_of id) ops = 0 ->
  (forall k, 0 <= k < count is_allocate ops ->
             wrap (NextDelayedConformanceID s + k) <> id) ->
  DelayedConformances s2 !! id = Some l.
Proof.
  revert s rets. induction ops as [| op ops IH];
    intros s rets Hn Hrun Hl Htake Hfresh.
  - cbn in Hrun. by injection Hrun as <- <-.
  - apply run_cons_inv in Hrun as (r & s1 & rs & Hstep & Hrun & ->).
    rewrite count_cons in Htake. rewrite count_cons in Hfresh.
    pose proof (count_nonneg (is_take_of id) ops) as Hc1.
    pose proof (count_nonneg is_allocate ops) as Hc2.
    destruct (is_take_of id op) eqn:Hop; [lia |].
    pose proof (step_counters _ _ _ _ Hstep) as (_ & Hn1 & _).
    eapply IH; [| exact Hrun | | lia |].
    + rewrite Hn1. destruct (is_allocate op); [apply wrap_unsigned | done].
    + eapply step_keeps_ticket; [exact Hstep | done | done |].
      intros Ha. rewrite Ha in Hfresh.
      specialize (Hfresh 0 ltac:(lia)). rewrite Z.add_0_r in Hfresh.
      by rewrite wrap_id in Hfresh.
    + intros k Hk. rewrite Hn1. destruct (is_allocate op).
      * unfold incr. rewrite wrap_add_l.
        replace (NextDelayedConformanceID s + 1 + k)
          with (NextDelayedConformanceID s + (k + 1)) by lia.
        apply Hfresh. lia.
      * apply Hfresh. lia.
Qed.

(** The ids handed out by a run with at most 2^32 allocations are pairwise
    distinct; by [run_allocations_bounded] below, every run that returns is
    such a run. *)
Lemma run_ticket_ids_NoDup ops s rets s2 :
  is_unsigned (NextDelayedConformanceID s) ->
  run ops s = Done (rets, s2) ->
  count is_allocate ops <= UINT_MAX + 1 ->
  NoDup (ticket_ids rets).
Proof.
  revert s rets. induction ops as [| op ops IH]; intros s rets Hn Hrun Hc.
  - cbn in Hrun. injection Hrun as <- <-. constructor.
  - apply run_cons_inv in Hrun as (r & s1 & rs & Hstep & Hrun & ->).
    pose proof (step_counters _ _ _ _ Hstep) as (_ & Hn1 & Hr).
    rewrite count_cons in Hc.
    pose proof (count_nonneg is_allocate ops) as Hc2.
    assert (Hn1' : is_unsigned (NextDelayedConformanceID s1)).
    { rewrite Hn1. destruct (is_allocate op); [apply wrap_unsigned | done]. }
    rewrite ticket_ids_cons, Hr.
    destruct (is_allocate op) eqn:Hop.
    + cbn [app]. constructor.
      * intros Hin.
        destruct (run_ticket_ids _ _ _ _ _ Hn1' Hrun Hin) as (k & Hk & Heq).
        rewrite Hn1 in Heq. unfold incr in Heq. rewrite wrap_add_l in Heq.
        symmetry in Heq. revert Heq.
        replace (NextDelayedConformanceID s + 1 + k)
          with (NextDelayedConformanceID s + (k + 1)) by lia.
        apply wrap_add_cycle; [done | lia].
      * eapply IH; [exact Hn1' | exact Hrun | lia].
    + cbn [app]. eapply IH; [exact Hn1' | exact Hrun | lia].
Qed.

(** An allocation that returns has stored under a key the table accepts. *)
Lemma step_allocate_defined op s r s' :
  step op s = Done (r, s') ->
  is_allocate op = true ->
  DenseMap_reserved (NextDelayedConformanceID s) = false.
Proof. intros Hstep Hop. step_cases op s Hstep; done. Qed.

(** As soon as a run that returns makes one allocation, the counter has
    stayed below the reserved keys throughout: it has not wrapped. *)
Lemma run_allocations_bounded ops s rets s2 :
  is_unsigned (NextDelayedConformanceID s) ->
  run ops s = Done (rets, s2) ->
  0 < count is_allocate ops ->
  NextDelayedConformanceID s + count is_allocate ops <= UINT_MAX - 1.
Proof.
  revert s rets. induction ops as [| op ops IH]; intros s rets Hn Hrun Hc.
  - rewrite count_nil in Hc. lia.
  - apply run_cons_inv in Hrun as (r & s1 & rs & Hstep & Hrun & ->).
    pose proof (step_counters _ _ _ _ Hstep) as (_ & Hn1 & _).
    rewrite count_cons in Hc |- *.
    pose proof (count_nonneg is_allocate ops) as Hc2.
    destruct (is_allocate op) eqn:Hop.
    + pose proof (step_allocate_defined _ _ _ _ Hstep Hop) as Hres.
      pose proof (DenseMap_reserved_false _ Hn Hres) as Hlt.
      rewrite incr_below in Hn1 by (unfold is_unsigned in Hn; lia || done).
      destruct (Z.eq_dec (count is_allocate ops) 0) as [-> | Hne]; [lia |].
      specialize (IH s1 rs). rewrite Hn1 in IH.
      unfold is_unsigned in IH, Hn. specialize (IH ltac:(lia) Hrun ltac:(lia)).
      lia.
    + specialize (IH s1 rs). rewrite Hn1 in IH.
      specialize (IH Hn Hrun ltac:(lia)). lia.
Qed.

Lemma allocateMany_succ n s :
  allocateMany (N.succ n) s
  = Exec_bind (allocateMany n s) (fun s =>
    Exec_bind (allocateDelayedConformance [] s) (fun '(_, s') => Done s')).
Proof. unfold allocateMany. apply N.iter_succ. Qed.

(** Allocations in a row all return as long as the counter stays below the
    reserved keys. *)
Lemma allocateMany_Done n s :
  0 <= NextDelayedConformanceID s ->
  NextDelayedConformanceID s + Z.of_N n <= UINT_MAX - 1 ->
  exists s', allocateMany n s = Done s' /\
             NextDelayedConformanceID s'
             = NextDelayedConformanceID s + Z.of_N n.
Proof.
  intros Hs. induction n as [| n IH] using N.peano_ind; intros Hn.
  - exists s. split; [reflexivity | lia].
  - destruct IH as (s' & Hrun & Hn'); [lia |].
    rewrite allocateMany_succ, Hrun. cbn [Exec_bind].
    unfold allocateDelayedConformance.
    assert (Hu : is_unsigned (NextDelayedConformanceID s'))
      by (unfold is_unsigned; lia).
    rewrite DenseMap_reserved_below by lia.
    cbn [Exec_bind]. eexists. split; [reflexivity |].
    cbn [NextDelayedConformanceID set_DelayedConformances
         set_NextDelayedConformanceID].
    rewrite incr_below; [lia | done | lia].
Qed.

(** C2 (as amended).  As long as the 32-bit counter is below 2^32 - 2, an
    allocation returns the counter as the ticket id and stores the list
    under it; at 2^32 - 2 and 2^32 - 1, the two keys the table reserves, the
    allocation is undefined.  The ids handed out by a run of calls that
    returns are pairwise distinct, and none of those handed out after a
    ticket equals it.  As long as the ticket has not been redeemed,
    redeeming it returns exactly the list that was queued and erases the
    entry from [DelayedConformances], so that the table has nothing left to
    return for it. *)
Theorem delayed_conformance_ticket_roundtrip s conformances :
  is_unsigned (NextDelayedConformanceID s) ->
  let id := NextDelayedConformanceID s in
  (UINT_MAX - 1 <= id ->
   allocateDelayedConformance conformances s = Undefined) /\
  (id < UINT_MAX - 1 ->
   exists s1,
     allocateDelayedConformance conformances s = Done (id, s1) /\
     DelayedConformances s1 !! id = Some conformances /\
     (forall ops rets s2,
        run ops s1 = Done (rets, s2) ->
        (id ∉ ticket_ids rets) /\
        (count (is_take_of id) ops = 0 ->
         exists s3,
           takeDelayedConformance id s2 = Done (conformances, s3) /\
           DelayedConformances s3 = delete id (DelayedConformances s2) /\
           DelayedConformances s3 !! id = None /\
           takeDelayedConformance id s3 = Undefined))) /\
  (forall ops rets s2,
     run ops s = Done (rets, s2) ->
     NoDup (ticket_ids rets)).
Proof.
  intros Hn id. split; [| split].
  { intros Hid. unfold allocateDelayedConformance. fold id.
    by rewrite DenseMap_reserved_above. }
  { intros Hid. unfold allocateDelayedConformance. fold id.
    rewrite DenseMap_reserved_below by (unfold is_unsigned in Hn; lia).
    eexists. split; [reflexivity |].
    set (s1 := set_DelayedConformances _ _).
    assert (Hl1 : DelayedConformances s1 !! id = Some conformances).
    { subst s1. cbn. apply lookup_insert_eq. }
    split; [exact Hl1 |].
    intros ops rets s2 Hrun.
    assert (Hn1 : NextDelayedConformanceID s1 = id + 1).
    { subst s1. cbn. fold id. apply incr_below; [done | lia]. }
    assert (Hu1 : is_unsigned (NextDelayedConformanceID s1)).
    { rewrite Hn1. unfold is_unsigned in *. lia. }
    assert (Hc : count is_allocate ops <= UINT_MAX).
    { pose proof (count_nonneg is_allocate ops) as Hc.
      destruct (Z.eq_dec (count is_allocate ops) 0) as [-> | Hne]; [done |].
      pose proof (run_allocations_bounded _ _ _ _ Hu1 Hrun ltac:(lia)).
      unfold is_unsigned in Hn. lia. }
    assert (Hfresh : forall k, 0 <= k < count is_allocate ops ->
                               wrap (NextDelayedConformanceID s1 + k) <> id).
    { intros k Hk. rewrite Hn1.
      replace (id + 1 + k) with (id + (k + 1)) by lia.
      apply wrap_add_cycle; [done | lia]. }
    split.
    - intros Hin.
      destruct (run_ticket_ids _ _ _ _ _ Hu1 Hrun Hin) as (k & Hk & Heq).
      by apply (Hfresh k Hk).
    - intros Htake.
      assert (Hl : DelayedConformances s2 !! id = Some conformances).
      { eapply run_keeps_ticket; [exact Hu1 | exact Hrun | | done | done].
        exact Hl1. }
      unfold takeDelayedConformance at 1. rewrite Hl.
      eexists. split; [reflexivity |].
      cbn [DelayedConformances set_DelayedConformances].
      split; [done |]. split; [apply lookup_delete_eq |].
      unfold takeDelayedConformance. cbn. by rewrite lookup_delete_eq. }
  intros ops rets s2 Hrun.
  eapply run_ticket_ids_NoDup; [exact Hn | exact Hrun |].
  pose proof (count_nonneg is_allocate ops) as Hc.
  destruct (Z.eq_dec (count is_allocate ops) 0) as [-> | Hne]; [done |].
  pose proof (run_allocations_bounded _ _ _ _ Hn Hrun ltac:(lia)).
  unfold is_unsigned in Hn. lia.
Qed.

End RunProperties.

(** ** Extension caches *)

Section ExtensionCacheProperties.

Context `{Host : HostContext ASTContext}.
Context `{Importer : !DeclImporter ASTContext}.

Implicit Types s : Implementation ASTContext.

Lemma run_app ops1 ops2 s rets s2 :
  run (ops1 ++ ops2) s = Done (rets, s2) ->
  exists rets1 s1 rets2,
    run ops1 s = Done (rets1, s1) /\
    run ops2 s1 = Done (rets2, s2) /\
    rets = rets1 ++ rets2.
Proof.
  revert s rets. induction ops1 as [| op ops1 IH]; intros s rets Hrun.
  - exists [], s, rets. auto.
  - rewrite <- app_comm_cons in Hrun.
    apply run_cons_inv in Hrun as (r & s' & rs & Hstep & Hrun & ->).
    apply IH in Hrun as (rets1 & s1 & rets2 & Hrun1 & Hrun2 & ->).
    exists (r :: rets1), s1, rets2. split; [| auto].
    cbn [run]. rewrite Hstep. cbn [Exec_bind]. rewrite Hrun1. done.
Qed.

Lemma fresh_inv cache :
  CachedExtensions.fresh cache ->
  CachedExtensions.Generation cache = 0 /\
  CachedExtensions.Extensions cache = None.
Proof. by intros []. Qed.

(** C10 (as amended).  A default-constructed or moved-from
    [CachedExtensions] carries stamp 0 and a null list.  [Generation]
    starts at 1 and each bump adds one modulo 2^32; in a session with fewer
    than 2^32 - 1 bumps it equals one plus the number of bumps, never
    decreases, and is not 0.  In such a session the stamp of a fresh entry
    never equals the current generation, so the entry is stale. *)
Theorem fresh_CachedExtensions_is_stale ctx ops rets s cache :
  run ops (initial ctx) = Done (rets, s) ->
  count is_bump ops < UINT_MAX ->
  CachedExtensions.fresh cache ->
  CachedExtensions.Generation cache = 0 /\
  CachedExtensions.Extensions cache = None /\
  Generation (initial ctx) = 1 /\
  Generation s = 1 + count is_bump ops /\
  (forall ops1 ops2 rets1 s1,
     ops = ops1 ++ ops2 -> run ops1 (initial ctx) = Done (rets1, s1) ->
     Generation s1 <= Generation s) /\
  ~ upToDate cache s.
Proof.
  intros Hrun Hc Hfresh.
  destruct (fresh_inv _ Hfresh) as [Hstamp Hnull].
  pose proof (count_nonneg is_bump ops) as Hc0.
  assert (Hinit : is_unsigned (Generation (initial ctx)) /\
                  is_unsigned (NextDelayedConformanceID (initial ctx))).
  { cbn. unfold is_unsigned. rewrite UINT_MAX_eq. lia. }
  destruct Hinit as [Hg0 Hn0].
  assert (Hgen : forall ops' rets' s',
            run ops' (initial ctx) = Done (rets', s') ->
            count is_bump ops' < UINT_MAX ->
            Generation s' = 1 + count is_bump ops').
  { intros ops' rets' s' Hrun' Hc'.
    destruct (run_counters _ _ _ _ Hg0 Hn0 Hrun') as [-> _].
    cbn [initial Generation].
    apply wrap_id. unfold is_unsigned.
    pose proof (count_nonneg is_bump ops'). lia. }
  pose proof (Hgen _ _ _ Hrun Hc) as Hs.
  do 4 (split; [done |]). split.
  - intros ops1 ops2 rets1 s1 -> Hrun1.
    rewrite count_app in Hc, Hs.
    pose proof (count_nonneg is_bump ops1).
    pose proof (count_nonneg is_bump ops2).
    rewrite (Hgen _ _ _ Hrun1) by lia. lia.
  - unfold upToDate. rewrite Hstamp, Hs. lia.
Qed.

(** With the lookup of the specification, a class whose entry is stale (or
    missing while the generation is not 0) gets its list rebuilt and
    stamped with the current generation. *)
Lemma classExtensions_rebuilds_stale_entry class s :
  ~ upToDate
      (default CachedExtensions.default (ClassExtensions s !! class)) s ->
  fst (classExtensions class s) = Some (loadExtensions class) /\
  ClassExtensions (snd (classExtensions class s)) !! class
  = Some (CachedExtensions.mk (Some (loadExtensions class)) (Generation s)).
Proof.
  unfold upToDate, classExtensions. intros Hstale.
  destruct (_ =? _) eqn:Hz; [by apply Z.eqb_eq in Hz |].
  split; [done |]. cbn. apply lookup_insert_eq.
Qed.

Lemma bumpMany_ClassExtensions n s :
  ClassExtensions (bumpMany n s) = ClassExtensions s.
Proof.
  induction n as [| n IH] using N.peano_ind; [done |].
  rewrite bumpMany_succ. cbn. exact IH.
Qed.

End ExtensionCacheProperties.

(** ** The identity map *)

Section ImportProperties.

Context `{Host : HostContext ASTContext}.
Context `{Importer : !DeclImporter ASTContext}.

Implicit Types s : Implementation ASTContext.

Lemma finishPendingActions_ImportedDecls s :
  ImportedDecls (finishPendingActions s) = ImportedDecls s.
Proof. reflexivity. Qed.

Lemma finishedImportingEntity_ImportedDecls s :
  ImportedDecls (finishedImportingEntity s) = ImportedDecls s.
Proof. unfold finishedImportingEntity. by destruct (_ =? _). Qed.

Lemma startedImportingEntity_ImportedDecls s :
  ImportedDecls (startedImportingEntity s) = ImportedDecls s.
Proof. reflexivity. Qed.

Lemma importDeclCached_finished D s :
  importDeclCached D (finishedImportingEntity s) = importDeclCached D s.
Proof.
  unfold importDeclCached. by rewrite finishedImportingEntity_ImportedDecls.
Qed.

Lemma importDeclCached_bump D s :
  importDeclCached D (bumpGeneration s) = importDeclCached D s.
Proof. reflexivity. Qed.

(** A request whose key is in the identity map returns the cached
    declaration: the importers are not run and the map is not touched. *)
Lemma importDeclAndCacheImpl_hit D t s :
  importDeclCached (requestKey D t) s <> nullptr ->
  importDeclAndCacheImpl D t s
  = (importDeclCached (requestKey D t) s,
     finishedImportingEntity (startedImportingEntity s)).
Proof.
  intros Hhit. unfold importDeclAndCacheImpl. fold (requestKey D t).
  change (importDeclCached (requestKey D t) (startedImportingEntity s))
    with (importDeclCached (requestKey D t) s).
  destruct (N.eqb_spec (importDeclCached (requestKey D t) s) nullptr); done.
Qed.

(** A request that returns a declaration leaves it in the identity map,
    under the key of the request. *)
Lemma importDeclAndCacheImpl_cached D t s :
  fst (importDeclAndCacheImpl D t s) <> nullptr ->
  importDeclCached (requestKey D t) (snd (importDeclAndCacheImpl D t s))
  = fst (importDeclAndCacheImpl D t s).
Proof.
  unfold importDeclAndCacheImpl. fold (requestKey D t).
  change (importDeclCached (requestKey D t) (startedImportingEntity s))
    with (importDeclCached (requestKey D t) s).
  destruct (N.eqb_spec (importDeclCached (requestKey D t) s) nullptr)
    as [Hmiss | Hhit]; cbn [negb].
  - destruct (importDeclImpl (requestKey D t) (startedImportingEntity s))
      as [Result s'].
    destruct (N.eqb_spec Result nullptr) as [-> | Hres]; cbn [fst snd];
      [done |].
    intros _. rewrite importDeclCached_finished.
    unfold importDeclCached. cbn. by rewrite lookup_insert_eq.
  - cbn [fst snd]. intros _. by rewrite importDeclCached_finished.
Qed.

Lemma importDeclAndCacheImpl_failed D t s :
  failures_are_stable ->
  fst (importDeclAndCacheImpl D t s) = nullptr ->
  importDeclCached (requestKey D t) (snd (importDeclAndCacheImpl D t s))
    = nullptr /\
  fst (importDeclImpl (requestKey D t) (startedImportingEntity s)) = nullptr.
Proof.
  intros [Hstable Hnone]. unfold importDeclAndCacheImpl. fold (requestKey D t).
  change (importDeclCached (requestKey D t) (startedImportingEntity s))
    with (importDeclCached (requestKey D t) s).
  destruct (N.eqb_spec (importDeclCached (requestKey D t) s) nullptr)
    as [Hmiss | Hhit]; cbn [negb]; [| done].
  pose proof (Hnone (requestKey D t) (startedImportingEntity s)) as Hkeep.
  destruct (importDeclImpl (requestKey D t) (startedImportingEntity s))
    as [Result s'].
  cbn [fst snd] in Hkeep.
  destruct (N.eqb_spec Result nullptr) as [-> | Hres]; cbn [fst snd]; [| done].
  intros _. split; [| done].
  rewrite importDeclCached_finished, Hkeep by done. exact Hmiss.
Qed.

Lemma importDeclAndCacheImpl_miss_failed D t s :
  failures_are_stable ->
  importDeclCached (requestKey D t) s = nullptr ->
  (exists s0, fst (importDeclImpl (requestKey D t) s0) = nullptr) ->
  fst (importDeclAndCacheImpl D t s) = nullptr.
Proof.
  intros [Hstable Hnone] Hmiss [s0 Hfail].
  unfold importDeclAndCacheImpl. fold (requestKey D t).
  change (importDeclCached (requestKey D t) (startedImportingEntity s))
    with (importDeclCached (requestKey D t) s).
  rewrite Hmiss. cbn.
  pose proof (Hstable _ _ (startedImportingEntity s) Hfail) as Hfail'.
  destruct (importDeclImpl (requestKey D t) (startedImportingEntity s))
    as [Result s'].
  cbn in Hfail'. subst Result. done.
Qed.

(** C1.  [importDecl] is the cached path [importDeclAndCacheImpl] with
    transparent typedefs.  For any foreign declaration, a second call of the
    cached path returns the very pointer the first call returned, and so
    does a third call made after a generation bump, which leaves
    [ImportedDecls] as it was.  This holds with no assumption when the first
    call returned a declaration; when it returned null (the declaration
    cannot be represented), it holds provided such failures are stable. *)
Theorem importDecl_idempotent ClangDecl transparent s :
  let call := importDeclAndCacheImpl ClangDecl transparent in
  let r1 := call s in
  let r2 := call (snd r1) in
  let r3 := call (bumpGeneration (snd r2)) in
  fst r1 <> nullptr \/ failures_are_stable ->
  importDecl ClangDecl = importDeclAndCacheImpl ClangDecl true /\
  fst r2 = fst r1 /\
  fst r3 = fst r1 /\
  ImportedDecls (bumpGeneration (snd r2)) = ImportedDecls (snd r2) /\
  (fst r1 <> nullptr ->
   ImportedDecls (snd r3) !! requestKey ClangDecl transparent = Some (fst r1)).
Proof.
  intros call r1 r2 r3 Hcase.
  split; [done |].
  destruct (decide (fst r1 = nullptr)) as [Hnull | Hsome].
  - destruct Hcase as [? | Hstable]; [done |].
    destruct (importDeclAndCacheImpl_failed _ _ _ Hstable Hnull)
      as [Hmiss1 Hfail].
    assert (H2 : fst r2 = nullptr).
    { apply importDeclAndCacheImpl_miss_failed; [done | exact Hmiss1 | eauto]. }
    destruct (importDeclAndCacheImpl_failed _ _ _ Hstable H2) as [Hmiss2 _].
    assert (H3 : fst r3 = nullptr).
    { apply importDeclAndCacheImpl_miss_failed; [done | | eauto].
      rewrite importDeclCached_bump. exact Hmiss2. }
    rewrite H2, H3, Hnull. by repeat split.
  - pose proof (importDeclAndCacheImpl_cached _ _ _ Hsome) as Hc1.
    fold call r1 in Hc1.
    assert (E2 : r2 = (fst r1, finishedImportingEntity
                                 (startedImportingEntity (snd r1)))).
    { unfold r2, call. rewrite importDeclAndCacheImpl_hit; rewrite Hc1; done. }
    assert (Hc2 : importDeclCached (requestKey ClangDecl transparent)
                    (bumpGeneration (snd r2)) = fst r1).
    { rewrite importDeclCached_bump, E2. cbn [snd].
      by rewrite importDeclCached_finished. }
    assert (E3 : r3 = (fst r1, finishedImportingEntity
                         (startedImportingEntity (bumpGeneration (snd r2))))).
    { unfold r3, call. rewrite importDeclAndCacheImpl_hit; rewrite Hc2; done. }
    rewrite E3. rewrite E2 at 1. cbn [fst snd].
    repeat split; try done.
    intros _. rewrite finishedImportingEntity_ImportedDecls.
    cbn [startedImportingEntity set_NumCurrentImportingEntities ImportedDecls
         bumpGeneration].
    unfold importDeclCached in Hc2. cbn [bumpGeneration ImportedDecls] in Hc2.
    destruct (ImportedDecls (snd r2) !! requestKey ClangDecl transparent)
      as [d |] eqn:Hl; cbn in Hc2; [by subst d | by subst].
Qed.

(** C5 (as amended).  [importDeclReal] is not cache-bypassing: it and
    [importDecl] are the same cached path [importDeclAndCacheImpl], and differ
    only in whether superfluous typedefs are transparent.  On a declaration
    that is not a superfluous typedef the two do the same.  [importDeclReal]
    returns the cached declaration when the map has one, leaving the map as
    it is, and a declaration it returns is in the map afterwards. *)
Theorem importDeclReal_is_cached ClangDecl s :
  importDeclReal ClangDecl s = importDeclAndCacheImpl ClangDecl false s /\
  importDecl ClangDecl s = importDeclAndCacheImpl ClangDecl true s /\
  (getUnderlyingDecl ClangDecl = ClangDecl ->
   importDeclReal ClangDecl s = importDecl ClangDecl s) /\
  (forall d, ImportedDecls s !! ClangDecl = Some d -> d <> nullptr ->
     fst (importDeclReal ClangDecl s) = d /\
     ImportedDecls (snd (importDeclReal ClangDecl s)) = ImportedDecls s) /\
  (fst (importDeclReal ClangDecl s) <> nullptr ->
   ImportedDecls (snd (importDeclReal ClangDecl s)) !! ClangDecl
   = Some (fst (importDeclReal ClangDecl s))).
Proof.
  split; [done |]. split; [done |]. split; [| split].
  - intros Hsame.
    unfold importDeclReal, importDecl, importDeclAndCacheImpl, requestKey.
    by rewrite Hsame.
  - intros d Hl Hd. unfold importDeclReal.
    rewrite importDeclAndCacheImpl_hit.
    + cbn [fst snd requestKey]. unfold importDeclCached. rewrite Hl.
      split; [done |]. by rewrite finishedImportingEntity_ImportedDecls.
    + cbn [requestKey]. unfold importDeclCached. by rewrite Hl.
  - intros Hsome. unfold importDeclReal in *.
    pose proof (importDeclAndCacheImpl_cached _ _ _ Hsome) as Hc.
    cbn [requestKey] in Hc. unfold importDeclCached in Hc.
    destruct (ImportedDecls _ !! ClangDecl) as [d |]; cbn in Hc.
    + by subst d.
    + by rewrite <- Hc in Hsome.
Qed.

End ImportProperties.

(** ** Selectors *)

Section SelectorProperties.

Import SelectorBridge.




End SelectorProperties.

(** ** Enumeration kinds *)

Section EnumProperties.

Import EnumClassifier.




End EnumProperties.

(** * The properties on the concrete session *)

Lemma exampleSession_unsigned :
  is_unsigned (Generation exampleSession) /\
  is_unsigned (NextDelayedConformanceID exampleSession).
Proof. unfold is_unsigned. rewrite UINT_MAX_eq. cbn. lia. Qed.

Lemma bumpGeneration_Generation `{Host : HostContext ASTContext}
    (s : Implementation ASTContext) :
  Generation (bumpGeneration s) = incr (Generation s).
Proof. reflexivity. Qed.

(** C4, counterexample.  After 2^32 - 2 bumps of a new session the counter
    holds the largest 32-bit value; the next bump takes it to 0, which is
    smaller. *)
Lemma Generation_wraps_to_zero :
  let s := bumpMany (Host := exampleHostContext) 4294967294 exampleSession in
  Generation s = UINT_MAX /\
  Generation (bumpGeneration (Host := exampleHostContext) s) = 0 /\
  Generation (bumpGeneration (Host := exampleHostContext) s) < Generation s.
Proof.
  cbv zeta.
  assert (Hg : Generation
                 (bumpMany (Host := exampleHostContext) 4294967294
                    exampleSession) = UINT_MAX).
  { rewrite bumpMany_Generation by apply exampleSession_unsigned.
    reflexivity. }
  rewrite bumpGeneration_Generation, Hg.
  split; [reflexivity |]. split; reflexivity.
Qed.

(** C4 on the concrete session: the first bump of a new session takes the
    generation from 1 to 2, empties the cache of visible declarations and
    leaves the identity map alone. *)
Lemma bumpGeneration_frame_witness :
  is_unsigned (Generation exampleSession) /\
  Generation (bumpGeneration (Host := exampleHostContext) exampleSession) = 2 /\
  CachedVisibleDecls
    (bumpGeneration (Host := exampleHostContext) exampleSession) = [] /\
  ImportedDecls (bumpGeneration (Host := exampleHostContext) exampleSession)
  = ImportedDecls exampleSession.
Proof.
  pose proof (proj1 exampleSession_unsigned) as Hu.
  destruct (bumpGeneration_frame (Host := exampleHostContext)
              exampleSession Hu)
    as (Hup & _ & _ & Hcache & _ & Hdecls & _).
  split; [exact Hu |]. split; [| split; [exact Hcache | exact Hdecls]].
  apply Hup. discriminate.
Defined.

Lemma Generation_after_all_bumps :
  Generation (bumpMany (Host := exampleHostContext) 4294967295 exampleSession)
  = 0.
Proof.
  rewrite bumpMany_Generation by apply exampleSession_unsigned. reflexivity.
Qed.

(** C10, counterexample.  After 2^32 - 1 bumps of a new session the counter
    is 0 again, and the stamp of a default-constructed entry equals it. *)
Lemma fresh_entry_current_after_wraparound :
  let s := bumpMany (Host := exampleHostContext) 4294967295 exampleSession in
  Generation s = 0 /\
  CachedExtensions.Generation CachedExtensions.default = Generation s /\
  upToDate CachedExtensions.default s.
Proof.
  cbv zeta. unfold upToDate. rewrite Generation_after_all_bumps.
  by repeat split.
Qed.

(** In that session the lookup of the specification takes the missing entry
    of a class for a current one and hands out its null list. *)
Lemma classExtensions_null_after_wraparound :
  fst (classExtensions (Importer := exampleImporter) 5
         (bumpMany (Host := exampleHostContext) 4294967295 exampleSession))
  = None.
Proof.
  unfold classExtensions. rewrite bumpMany_ClassExtensions.
  rewrite Generation_after_all_bumps. reflexivity.
Qed.

(** C10 on the concrete session: after a run with two bumps the generation
    is 3 and a default-constructed entry is stale. *)
Lemma fresh_CachedExtensions_is_stale_witness :
  exists rets s,
    run (Host := exampleHostContext) exampleOps exampleSession
    = Done (rets, s) /\
    count is_bump exampleOps < UINT_MAX /\
    CachedExtensions.fresh CachedExtensions.default /\
    Generation s = 3 /\
    ~ upToDate CachedExtensions.default s.
Proof.
  eexists _, _. split; [reflexivity |].
  assert (Hc : count is_bump exampleOps < UINT_MAX) by reflexivity.
  split; [exact Hc |]. split; [constructor |].
  destruct (fresh_CachedExtensions_is_stale (Host := exampleHostContext)
              (mkExampleHost 0 0 []) exampleOps _ _ CachedExtensions.default
              eq_refl Hc CachedExtensions.fresh_default)
    as (_ & _ & _ & Hg & _ & Hstale).
  split; [exact Hg | exact Hstale].
Defined.

(** C2, counterexample.  After 2^32 - 2 allocations on a new session the
    counter is 4294967294, the tombstone key of [DelayedConformances]: the
    next allocation is undefined, it hands out no ticket and stores no
    list. *)
Lemma allocation_at_reserved_key_undefined :
  exists s,
    allocateMany 4294967294 exampleSession = Done s /\
    NextDelayedConformanceID s = 4294967294 /\
    allocateDelayedConformance [9%N] s = Undefined.
Proof.
  destruct (allocateMany_Done 4294967294 exampleSession)
    as (s & Hrun & Hn).
  { change (NextDelayedConformanceID exampleSession) with 0. lia. }
  { change (NextDelayedConformanceID exampleSession) with 0.
    rewrite UINT_MAX_eq. lia. }
  change (NextDelayedConformanceID exampleSession + Z.of_N 4294967294)
    with 4294967294 in Hn.
  exists s. split; [exact Hrun |]. split; [exact Hn |].
  unfold allocateDelayedConformance. rewrite Hn. reflexivity.
Qed.

(** C2 on the concrete session: the first ticket is 0; after further calls,
    one of them an allocation, redeeming ticket 0 returns the queued list,
    and the table has no entry for it afterwards. *)
Lemma delayed_conformance_ticket_roundtrip_witness :
  is_unsigned (NextDelayedConformanceID exampleSession) /\
  exists s1 s2 s3,
    allocateDelayedConformance [5%N; 6%N] exampleSession = Done (0, s1) /\
    DelayedConformances s1 !! 0 = Some [5%N; 6%N] /\
    run (Host := exampleHostContext) exampleOps s1
    = Done ([RetVoid; RetId 1; RetVoid], s2) /\
    takeDelayedConformance 0 s2 = Done ([5%N; 6%N], s3) /\
    takeDelayedConformance 0 s3 = Undefined.
Proof.
  pose proof (proj2 exampleSession_unsigned) as Hu.
  destruct (delayed_conformance_ticket_roundtrip (Host := exampleHostContext)
              exampleSession [5%N; 6%N] Hu)
    as (_ & Hdefined & _).
  destruct (Hdefined ltac:(reflexivity))
    as (s1 & Halloc & Hstored & Hlater).
  split; [exact Hu |]. exists s1.
  assert (Hs1 : allocateDelayedConformance [5%N; 6%N] exampleSession
                = Done (0, s1)) by exact Halloc.
  vm_compute in Halloc. injection Halloc as Halloc.
  assert (Hrun : exists s2, run (Host := exampleHostContext) exampleOps s1
                            = Done ([RetVoid; RetId 1; RetVoid], s2)).
  { rewrite <- Halloc. eexists. vm_compute. reflexivity. }
  destruct Hrun as (s2 & Hrun).
  destruct (Hlater exampleOps _ s2 Hrun) as (_ & Htake).
  destruct (Htake eq_refl) as (s3 & Ht & _ & _ & Hagain).
  exists s2, s3.
  split; [exact Hs1 |]. split; [exact Hstored |]. split; [exact Hrun |].
  split; [exact Ht | exact Hagain].
Defined.

(** ** Redeeming a ticket that is not in the table *)

(** C3.  The code at the failing inputs: redeeming a ticket that was never
    allocated, and redeeming a ticket a second time, dereference the end
    iterator of [DelayedConformances]; the call is undefined, it is not
    stopped by an assertion. *)
Theorem takeDelayedConformance_unknown_ticket :
  takeDelayedConformance 0 exampleSession = Undefined /\
  takeDelayedConformance 0 exampleSession
  <> (AssertionFailure : Exec (list ptr * Implementation ExampleHost)) /\
  exists s1 s2,
    allocateDelayedConformance [7%N] exampleSession = Done (0, s1) /\
    takeDelayedConformance 0 s1 = Done ([7%N], s2) /\
    takeDelayedConformance 0 s2 = Undefined.
Proof.
  split; [reflexivity |]. split; [discriminate |].
  eexists _, _. split; [reflexivity |]. split; reflexivity.
Qed.

(** In any session, a ticket without an entry is not detected. *)
Lemma takeDelayedConformance_missing {ASTContext : Type}
    (s : Implementation ASTContext) (id : Z) :
  DelayedConformances s !! id = None ->
  takeDelayedConformance id s = Undefined.
Proof. unfold takeDelayedConformance. by intros ->. Qed.

(** The sibling [takeImportedProtocols] compares the iterator with [end()]
    and returns an empty list for a declaration without an entry. *)
Lemma takeImportedProtocols_missing {ASTContext : Type}
    (s : Implementation ASTContext) (decl : ptr) :
  ImportedProtocols s !! decl = None ->
  takeImportedProtocols decl s = ([], s).
Proof. unfold takeImportedProtocols. by intros ->. Qed.

(** A programming error the header does detect: installing a second type
    resolver fails the assertion of [setTypeResolver]. *)
Lemma setTypeResolver_twice :
  Exec_bind (setTypeResolver 1%N exampleSession) (setTypeResolver 2%N)
  = AssertionFailure.
Proof. reflexivity. Qed.

(** ** The identity map on the concrete session *)

(** The importer of the concrete session fails on declaration 13 only, in
    every session, and then leaves the session as it was. *)
Lemma exampleImporter_failures_are_stable :
  failures_are_stable (Importer := exampleImporter).
Proof.
  split.
  - intros D s s'. cbn. destruct (N.eqb D 13); [done |]. cbn.
    intros Hnull. by destruct (lastDecl (SwiftContext s)).
  - intros D s. cbn. destruct (N.eqb D 13); [done |]. cbn.
    intros Hnull. by destruct (lastDecl (SwiftContext s)).
Qed.

(** C1 on the concrete session: the typedef 20 is imported three times, the
    last time after a bump, and every call returns the declaration at
    address 1; declaration 13 cannot be represented and every call returns
    null. *)
Lemma importDecl_idempotent_witness :
  let call20 := importDecl (Host := exampleHostContext)
                  (Importer := exampleImporter) 20 in
  let call13 := importDecl (Host := exampleHostContext)
                  (Importer := exampleImporter) 13 in
  let bump := bumpGeneration (Host := exampleHostContext) in
  (fst (call20 exampleSession) = 1%N /\
   fst (call20 (snd (call20 exampleSession))) = 1%N /\
   fst (call20 (bump (snd (call20 (snd (call20 exampleSession)))))) = 1%N) /\
  (fst (call13 exampleSession) = nullptr /\
   fst (call13 (snd (call13 exampleSession))) = nullptr /\
   fst (call13 (bump (snd (call13 (snd (call13 exampleSession)))))) = nullptr).
Proof.
  cbv zeta. split.
  - assert (H1 : fst (importDecl (Host := exampleHostContext)
                        (Importer := exampleImporter) 20 exampleSession)
                 = 1%N) by reflexivity.
    destruct (importDecl_idempotent (Host := exampleHostContext)
                (Importer := exampleImporter) 20 true exampleSession)
      as (_ & H2 & H3 & _).
    { left. unfold importDecl in H1. rewrite H1. discriminate. }
    unfold importDecl in *. rewrite H2, H3, H1. by repeat split.
  - assert (H1 : fst (importDecl (Host := exampleHostContext)
                        (Importer := exampleImporter) 13 exampleSession)
                 = nullptr) by reflexivity.
    destruct (importDecl_idempotent (Host := exampleHostContext)
                (Importer := exampleImporter) 13 true exampleSession)
      as (_ & H2 & H3 & _).
    { right. apply exampleImporter_failures_are_stable. }
    unfold importDecl in *. rewrite H2, H3, H1. by repeat split.
Defined.

(** C5, counterexample.  On a new session [importDeclReal] puts the
    declaration it produced into [ImportedDecls]; called again, it returns
    that same declaration from the map, where running the importers again
    would have produced a new one. *)
Lemma importDeclReal_populates_and_consults_cache :
  let r1 := importDeclReal (Host := exampleHostContext)
              (Importer := exampleImporter) 10 exampleSession in
  let r2 := importDeclReal (Host := exampleHostContext)
              (Importer := exampleImporter) 10 (snd r1) in
  ImportedDecls exampleSession !! 10%N = None /\
  fst r1 = 1%N /\
  ImportedDecls (snd r1) !! 10%N = Some 1%N /\
  ImportedDecls (snd r1) <> ImportedDecls exampleSession /\
  fst r2 = 1%N /\
  fst (importBypassingCache (Importer := exampleImporter) 10 (snd r1)) = 2%N /\
  fst r2
  <> fst (importBypassingCache (Importer := exampleImporter) 10 (snd r1)).
Proof.
  cbv zeta.
  split; [reflexivity |]. split; [reflexivity |].
  split; [reflexivity |]. split.
  { intros Heq.
    assert (Hl : ImportedDecls
                   (snd (importDeclReal (Host := exampleHostContext)
                           (Importer := exampleImporter) 10 exampleSession))
                 !! 10%N = Some 1%N) by reflexivity.
    rewrite Heq in Hl. discriminate Hl. }
  split; [reflexivity |]. split; [reflexivity | discriminate].
Qed.

(** ** Selectors on concrete names *)

(** The one-argument selector [foo:] and the unary selector [foo] have
    different names, [foo(_:)] and [foo], and each comes back from its
    name; so does [insert:at:], whose name is [insert(_:at:)]. *)
Lemma selector_round_trip_examples :
  SelectorBridge.structuredName
    (SelectorBridge.importSelector (SelectorBridge.mkSelector 1 ["foo"]))
  = CompoundName "foo" [""] /\
  SelectorBridge.structuredName
    (SelectorBridge.importSelector (SelectorBridge.mkSelector 0 ["foo"]))
  = SimpleName "foo" /\
  SelectorBridge.exportSelector (CompoundName "foo" [""]) true
  = SelectorBridge.mkSelector 1 ["foo"] /\
  SelectorBridge.exportSelector (SimpleName "foo") true
  = SelectorBridge.mkSelector 0 ["foo"] /\
  SelectorBridge.structuredName
    (SelectorBridge.importSelector
       (SelectorBridge.mkSelector 2 ["insert"; "at"]))
  = CompoundName "insert" [""; "at"] /\
  SelectorBridge.exportSelector (CompoundName "insert" [""; "at"]) true
  = SelectorBridge.mkSelector 2 ["insert"; "at"].
Proof. repeat split. Qed.

(** ** Enumerations on concrete declarations *)


(** The constants 1, 2 and 3 are flags and a combination of them; 0, 1 and 2
    are not, and are cases only under a closed annotation. *)
Lemma classifyEnum_examples :
  EnumClassifier.classifyEnum
    (EnumClassifier.mkEnumDecl None false [1; 2; 3]) = Options /\
  EnumClassifier.classifyEnum
    (EnumClassifier.mkEnumDecl None false [0; 1; 2]) = Unknown /\
  EnumClassifier.classifyEnum
    (EnumClassifier.mkEnumDecl (Some EnumClassifier.ClosedAnnotation) false
       [1; 2; 4]) = Enum /\
  EnumClassifier.classifyEnum
    (EnumClassifier.mkEnumDecl (Some EnumClassifier.BitFlagAnnotation) false
       [0; 1; 2]) = Options.
Proof. repeat split. Qed.

(** * Further properties of the inline members *)

Ltac step_inv Hstep :=
  match type of Hstep with
  | step ?op ?s = Done _ =>
      destruct op; cbn in Hstep;
      repeat match type of Hstep with
      | context [getAlternateDecl ?d ?s] =>
          unfold getAlternateDecl in Hstep;
          destruct (AlternateDecls s !! d); cbn in Hstep
      | context [setTypeResolver ?r ?s] =>
          unfold setTypeResolver in Hstep;
          destruct (N.eqb (getTypeResolver s) nullptr || N.eqb r nullptr)
            eqn:?;
          cbn in Hstep
      | context [allocateDelayedConformance ?l ?s] =>
          unfold allocateDelayedConformance in Hstep; cbn in Hstep
      | context [DenseMap_reserved ?k] =>
          destruct (DenseMap_reserved k) eqn:?; cbn in Hstep
      | context [takeDelayedConformance ?i ?s] =>
          unfold takeDelayedConformance in Hstep;
          destruct (DelayedConformances s !! i) eqn:?; cbn in Hstep
      | context [takeImportedProtocols ?d ?s] =>
          unfold takeImportedProtocols in Hstep;
          destruct (ImportedProtocols s !! d) eqn:?; cbn in Hstep
      | context [recordImportedProtocols ?d ?p ?s] =>
          unfold recordImportedProtocols in Hstep; destruct p; cbn in Hstep
      end;
      try discriminate Hstep;
      injection Hstep as <- <-
  end.

(** ** Imported protocols *)

Section ImportedProtocolsProperties.

Context `{Host : HostContext ASTContext}.

Implicit Types s : Implementation ASTContext.

Lemma takeImportedProtocols_fst decl s :
  fst (takeImportedProtocols decl s) = default [] (ImportedProtocols s !! decl).
Proof. unfold takeImportedProtocols. by destruct (_ !! _). Qed.

Lemma step_recordedProtocols op s r s' decl :
  step op s = Done (r, s') ->
  is_take_protocols_of decl op = false ->
  default [] (ImportedProtocols s' !! decl)
  = default [] (ImportedProtocols s !! decl) ++ recordedProtocols decl [op].
Proof.
  intros Hstep Htake. step_inv Hstep; cbn -[N.eqb];
    rewrite ?app_nil_r; try done.
  - by destruct (N.eqb_spec decl0 decl); rewrite app_nil_r.
  - destruct (N.eqb_spec decl0 decl) as [-> | Hne].
    + by rewrite lookup_insert_eq.
    + rewrite lookup_insert_ne by done. by rewrite app_nil_r.
  - cbn in Htake. rewrite lookup_delete_ne; [done |].
    intros ->. by rewrite N.eqb_refl in Htake.
Qed.

Lemma recordedProtocols_cons decl op ops :
  recordedProtocols decl (op :: ops)
  = recordedProtocols decl [op] ++ recordedProtocols decl ops.
Proof. destruct op; cbn -[N.eqb]; by rewrite ?app_nil_r. Qed.

(** X1.  Protocols recorded for a declaration accumulate in call order, over
    any other calls made in between, until they are taken: the take returns
    what was there before followed by every list recorded since, erases the
    entry, and a second take returns the empty list and changes nothing. *)
Theorem importedProtocols_accumulate ops s rets s2 decl :
  run ops s = Done (rets, s2) ->
  count (is_take_protocols_of decl) ops = 0 ->
  fst (takeImportedProtocols decl s2)
  = fst (takeImportedProtocols decl s) ++ recordedProtocols decl ops /\
  ImportedProtocols (snd (takeImportedProtocols decl s2)) !! decl = None /\
  takeImportedProtocols decl (snd (takeImportedProtocols decl s2))
  = ([], snd (takeImportedProtocols decl s2)).
Proof.
  intros Hrun Htake. split; [| split].
  - rewrite !takeImportedProtocols_fst.
    revert s rets Hrun Htake. induction ops as [| op ops IH];
      intros s rets Hrun Htake.
    + cbn in Hrun. injection Hrun as <- <-. by rewrite app_nil_r.
    + apply run_cons_inv in Hrun as (r & s1 & rs & Hstep & Hrun & ->).
      rewrite count_cons in Htake.
      pose proof (count_nonneg (is_take_protocols_of decl) ops).
      destruct (is_take_protocols_of decl op) eqn:Hop; [lia |].
      rewrite (IH _ _ Hrun) by lia.
      rewrite (step_recordedProtocols _ _ _ _ _ Hstep Hop).
      by rewrite (recordedProtocols_cons decl op ops), app_assoc.
  - unfold takeImportedProtocols.
    destruct (ImportedProtocols s2 !! decl) eqn:Hl; cbn; [| done].
    apply lookup_delete_eq.
  - assert (Hnone : ImportedProtocols (snd (takeImportedProtocols decl s2))
                    !! decl = None).
    { unfold takeImportedProtocols.
      destruct (ImportedProtocols s2 !! decl) eqn:Hl; cbn; [| done].
      apply lookup_delete_eq. }
    unfold takeImportedProtocols at 1. by rewrite Hnone.
Qed.

(** X2.  In a session that starts from a new [Implementation],
    [ImportedProtocols] never holds an empty list: recording an empty list
    creates no entry.  So a take returns the empty list exactly when the
    declaration has no entry. *)
Theorem importedProtocols_entries_nonempty ctx ops rets s decl :
  run ops (initial ctx) = Done (rets, s) ->
  (forall protocols,
     ImportedProtocols s !! decl = Some protocols -> protocols <> []) /\
  (fst (takeImportedProtocols decl s) = [] <->
   ImportedProtocols s !! decl = None).
Proof.
  intros Hrun.
  assert (Hinv : forall d l, ImportedProtocols s !! d = Some l -> l <> []).
  { assert (Hinit : forall d l,
              ImportedProtocols (initial ctx) !! d = Some l -> l <> []).
    { intros d l Hl. cbn in Hl. by rewrite lookup_empty in Hl. }
    revert Hrun Hinit. generalize (initial ctx). revert rets.
    induction ops as [| op ops IH]; intros rets s0 Hrun Hinit.
    - cbn in Hrun. by injection Hrun as <- <-.
    - apply run_cons_inv in Hrun as (r & s1 & rs & Hstep & Hrun & ->).
      apply (IH _ _ Hrun). clear IH Hrun.
      step_inv Hstep; cbn; try exact Hinit.
      + intros d ps. destruct (decide (decl0 = d)) as [-> | Hne].
        * rewrite lookup_insert_eq. intros [= <-].
          by destruct (default [] _).
        * rewrite lookup_insert_ne by done. apply Hinit.
      + intros d ps. destruct (decide (decl0 = d)) as [-> | Hne].
        * by rewrite lookup_delete_eq.
        * rewrite lookup_delete_ne by done. apply Hinit. }
  split; [apply Hinv |].
  rewrite takeImportedProtocols_fst.
  destruct (ImportedProtocols s !! decl) as [l |] eqn:Hl; cbn.
  - split; [| done]. intros ->. by destruct (Hinv _ _ Hl).
  - done.
Qed.

End ImportedProtocolsProperties.

(** ** The type resolver *)

Section TypeResolverProperties.

Context `{Host : HostContext ASTContext}.

Implicit Types s : Implementation ASTContext.

Lemma step_resolverConsistent op s r s' :
  step op s = Done (r, s') ->
  (resolverConsistent s -> resolverConsistent s') /\
  (hasBegunTypeChecking s = true -> hasBegunTypeChecking s' = true).
Proof. intros Hstep. step_inv Hstep; done. Qed.

Lemma run_resolverConsistent ops s rets s2 :
  run ops s = Done (rets, s2) ->
  (resolverConsistent s -> resolverConsistent s2) /\
  (hasBegunTypeChecking s = true -> hasBegunTypeChecking s2 = true).
Proof.
  revert s rets. induction ops as [| op ops IH]; intros s rets Hrun.
  - cbn in Hrun. by injection Hrun as <- <-.
  - apply run_cons_inv in Hrun as (r & s1 & rs & Hstep & Hrun & ->).
    destruct (step_resolverConsistent _ _ _ _ Hstep) as [H1 H2].
    destruct (IH _ _ Hrun) as [H3 H4]. auto.
Qed.

Lemma stage_not_NotBegun s :
  typeCheckingStage s <> NotBegun <-> hasBegunTypeChecking s = true.
Proof.
  unfold typeCheckingStage, hasFinishedTypeChecking.
  destruct (hasBegunTypeChecking s); cbn.
  - by destruct (N.eqb _ _).
  - split; [done | discriminate].
Qed.

(** X3.  In a session that starts from a new [Implementation], a type
    resolver is installed only while type checking is under way: the stage
    is "checking" exactly when the resolver is non-null.  The stage never
    returns to "not begun".  [setTypeResolver] fails its assertion exactly
    when a resolver is installed and the new one is non-null; when it
    succeeds, the stage is "finished" for a null resolver and "checking"
    otherwise. *)
Theorem typeResolver_lifecycle ctx ops rets s :
  run ops (initial ctx) = Done (rets, s) ->
  (typeCheckingStage s = Checking <-> getTypeResolver s <> nullptr) /\
  (forall ops' rets' s',
     run ops' s = Done (rets', s') ->
     typeCheckingStage s <> NotBegun -> typeCheckingStage s' <> NotBegun) /\
  (forall r, setTypeResolver r s = AssertionFailure <->
             getTypeResolver s <> nullptr /\ r <> nullptr) /\
  (forall r s', setTypeResolver r s = Done s' ->
     getTypeResolver s' = r /\
     typeCheckingStage s'
     = if N.eqb r nullptr then Finished else Checking).
Proof.
  intros Hrun.
  assert (Hcons : resolverConsistent s).
  { apply (run_resolverConsistent _ _ _ _ Hrun). by intros []. }
  split; [| split; [| split]].
  - unfold resolverConsistent in Hcons.
    unfold typeCheckingStage, hasFinishedTypeChecking in *.
    destruct (N.eqb_spec (getTypeResolver s) nullptr) as [Hnull | Hres].
    + rewrite andb_true_r. split; [| done].
      by destruct (hasBegunTypeChecking s).
    + rewrite (Hcons Hres). done.
  - intros ops' rets' s' Hrun'. rewrite !stage_not_NotBegun.
    apply (run_resolverConsistent _ _ _ _ Hrun').
  - intros r. unfold setTypeResolver.
    destruct (N.eqb_spec (getTypeResolver s) nullptr),
             (N.eqb_spec r nullptr); cbn; split; try done; by intros [].
  - intros r s'. unfold setTypeResolver.
    destruct (_ || _); [| done]. intros [= <-]. split; [done |].
    unfold typeCheckingStage, hasFinishedTypeChecking. cbn.
    by destruct (N.eqb r nullptr).
Qed.

End TypeResolverProperties.

(** ** The queues of pending work *)

Section QueueProperties.

Context `{Host : HostContext ASTContext}.

Implicit Types s : Implementation ASTContext.

(** X4.  The declarations registered and the conformances scheduled during
    any sequence of the calls of [Op] are appended to their queues in call
    order, after what the queues held before: none of these calls removes or
    reorders an element.  (The queues are emptied by [finishPendingActions],
    which the header only declares and which [importDecl] and
    [importDeclReal] reach through [ImportingEntityRAII].) *)
Theorem pending_queues_fifo ops s rets s2 :
  run ops s = Done (rets, s2) ->
  RegisteredExternalDecls s2
  = RegisteredExternalDecls s ++ registeredDecls ops /\
  DelayedProtocolConformances s2
  = DelayedProtocolConformances s ++ scheduledConformances ops.
Proof.
  revert s rets. induction ops as [| op ops IH]; intros s rets Hrun.
  - cbn in Hrun. injection Hrun as <- <-. by rewrite !app_nil_r.
  - apply run_cons_inv in Hrun as (r & s1 & rs & Hstep & Hrun & ->).
    destruct (IH _ _ Hrun) as [-> ->]. clear IH Hrun.
    step_inv Hstep; cbn; try done.
    + by rewrite <- app_assoc.
    + by rewrite <- app_assoc.
Qed.

End QueueProperties.

(** ** Delayed conformances *)

Section DelayedConformanceProperties.

Context `{Host : HostContext ASTContext}.

Implicit Types s : Implementation ASTContext.

(** X5.  Redeeming two tickets in either order gives the same outcome.  Two
    different tickets that are both pending give their two lists and the
    session whose table has lost exactly these two entries; if the two ids
    are equal, or either ticket is missing, both orders are undefined. *)
Theorem takeDelayedConformance_commute (a b : Z) s :
  takeBoth a b s
  = Exec_map (fun '(lb, la, s') => (la, lb, s')) (takeBoth b a s) /\
  (forall la lb,
     a <> b ->
     DelayedConformances s !! a = Some la ->
     DelayedConformances s !! b = Some lb ->
     takeBoth a b s
     = Done (la, lb,
             set_DelayedConformances
               (delete b (delete a (DelayedConformances s))) s)) /\
  (a = b \/ DelayedConformances s !! a = None
         \/ DelayedConformances s !! b = None ->
   takeBoth a b s = Undefined /\ takeBoth b a s = Undefined).
Proof.
  split; [| split].
  - unfold takeBoth, Exec_map, takeDelayedConformance.
    destruct (decide (a = b)) as [-> | Hne].
    + destruct (DelayedConformances s !! b) eqn:Hb; cbn; [| done].
      by rewrite lookup_delete_eq.
    + destruct (DelayedConformances s !! a) eqn:Ha,
               (DelayedConformances s !! b) eqn:Hb; cbn;
        rewrite ?lookup_delete_ne by done; rewrite ?Ha, ?Hb; cbn; try done.
      by rewrite delete_delete.
  - intros la lb Hne Ha Hb. unfold takeBoth, takeDelayedConformance.
    rewrite Ha. cbn. rewrite lookup_delete_ne by done. rewrite Hb. done.
  - unfold takeBoth, takeDelayedConformance.
    intros [-> | [Ha | Hb]].
    + destruct (DelayedConformances s !! b) eqn:Hb; cbn; [| done].
      by rewrite lookup_delete_eq.
    + rewrite Ha. cbn. split; [done |].
      destruct (DelayedConformances s !! b) eqn:Hb; cbn; [| done].
      destruct (decide (b = a)) as [-> | Hne]; [congruence |].
      rewrite lookup_delete_ne by done. by rewrite Ha.
    + rewrite Hb. cbn. split; [| done].
      destruct (DelayedConformances s !! a) eqn:Ha; cbn; [| done].
      destruct (decide (a = b)) as [-> | Hne]; [congruence |].
      rewrite lookup_delete_ne by done. by rewrite Hb.
Qed.

Lemma run_ticketsBelow ops s n rets s2 :
  ticketsBelow n s ->
  run ops s = Done (rets, s2) ->
  ticketsBelow (n + count is_allocate ops) s2 /\
  Z.of_nat (size (DelayedConformances s2))
  = Z.of_nat (size (DelayedConformances s))
    + count is_allocate ops - count is_take ops.
Proof.
  revert s n rets. induction ops as [| op ops IH];
    intros s n rets Hinv Hrun.
  - cbn in Hrun. injection Hrun as <- <-. rewrite !count_nil, Z.add_0_r.
    split; [done | lia].
  - apply run_cons_inv in Hrun as (r & s1 & rs & Hstep & Hrun & ->).
    rewrite !count_cons in *.
    pose proof (count_nonneg is_allocate ops) as Hc.
    destruct Hinv as (Hn & Hnext & Hkeys).
    assert (Hstep1 :
      ticketsBelow (n + (if is_allocate op then 1 else 0)) s1 /\
      Z.of_nat (size (DelayedConformances s1))
      = Z.of_nat (size (DelayedConformances s))
        + (if is_allocate op then 1 else 0)
        - (if is_take op then 1 else 0)).
    { clear IH Hrun. step_inv Hstep; cbn [is_allocate is_take];
        rewrite ?Z.add_0_r, ?Z.sub_0_r; try done.
      - assert (Hlt : n < UINT_MAX - 1).
        { rewrite <- Hnext. apply DenseMap_reserved_false; [| done].
          rewrite Hnext. unfold is_unsigned. lia. }
        assert (Hfree : DelayedConformances s !! n = None).
        { destruct (DelayedConformances s !! n) eqn:Hl; [| done].
          specialize (Hkeys n ltac:(eauto)). lia. }
        cbn. rewrite Hnext. split.
        + split; [lia |]. split.
          * apply incr_below; [unfold is_unsigned |]; lia.
          * intros id. cbn. destruct (decide (n = id)) as [<- | Hne]; [lia |].
            rewrite lookup_insert_ne by done. intros Hin.
            specialize (Hkeys id Hin). lia.
        + cbn. rewrite map_size_insert_None by done. lia.
      - cbn. split.
        + split; [done |]. split; [done |].
          intros i. cbn. destruct (decide (id = i)) as [<- | Hne].
          * rewrite lookup_delete_eq. by intros [? ?].
          * rewrite lookup_delete_ne by done. apply Hkeys.
        + cbn. rewrite map_size_delete_Some by eauto.
          assert (size (DelayedConformances s) <> 0%nat).
          { apply map_size_ne_0_lookup. eauto. }
          lia. }
    destruct Hstep1 as [Hinv1 Hsize1].
    destruct (IH _ _ _ Hinv1 Hrun) as [Hinv2 Hsize2].
    split.
    + replace (n + ((if is_allocate op then 1 else 0) + count is_allocate ops))
        with (n + (if is_allocate op then 1 else 0) + count is_allocate ops)
        by lia.
      exact Hinv2.
    + lia.
Qed.

(** X7.  In a session of the calls of [Op] that starts from a new
    [Implementation] and returns, at most 2^32 - 2 allocations were made;
    the counter is the number of allocations, every pending ticket is
    smaller than it, the table holds as many entries as there were
    allocations minus redemptions, and the slot of the next ticket is free.
    While fewer than 2^32 - 2 allocations were made, one more allocation
    returns the counter, adds an entry and keeps every pending one; after
    2^32 - 2 allocations the next one is undefined. *)
Theorem pending_tickets_invariant ctx ops rets s :
  run ops (initial ctx) = Done (rets, s) ->
  let n := count is_allocate ops in
  n <= UINT_MAX - 1 /\
  NextDelayedConformanceID s = n /\
  (forall id, is_Some (DelayedConformances s !! id) -> 0 <= id < n) /\
  Z.of_nat (size (DelayedConformances s)) = n - count is_take ops /\
  DelayedConformances s !! n = None /\
  (n < UINT_MAX - 1 ->
   forall conformances, exists s',
     allocateDelayedConformance conformances s = Done (n, s') /\
     size (DelayedConformances s') = S (size (DelayedConformances s)) /\
     DelayedConformances s' !! n = Some conformances /\
     forall id l, DelayedConformances s !! id = Some l ->
                  DelayedConformances s' !! id = Some l) /\
  (n = UINT_MAX - 1 ->
   forall conformances,
     allocateDelayedConformance conformances s = Undefined).
Proof.
  intros Hrun n.
  assert (Hinit : ticketsBelow 0 (initial ctx)).
  { split; [rewrite UINT_MAX_eq; lia |]. split; [done |]. intros id [l Hl].
    cbn in Hl. by rewrite lookup_empty in Hl. }
  destruct (run_ticketsBelow _ _ _ _ _ Hinit Hrun) as [Hinv Hsize].
  rewrite Z.add_0_l in Hinv. fold n in Hinv, Hsize.
  destruct Hinv as (Hn & Hnext & Hkeys).
  assert (Hfree : DelayedConformances s !! n = None).
  { destruct (DelayedConformances s !! n) eqn:Hl; [| done].
    specialize (Hkeys _ ltac:(eauto)). lia. }
  split; [lia |]. split; [exact Hnext |]. split; [exact Hkeys |]. split.
  { rewrite Hsize. cbn. rewrite map_size_empty. lia. }
  split; [exact Hfree |]. split.
  - intros Hlt conformances. unfold allocateDelayedConformance.
    rewrite Hnext, DenseMap_reserved_below by done.
    eexists. split; [reflexivity |]. cbn. split; [| split].
    + by rewrite map_size_insert_None.
    + apply lookup_insert_eq.
    + intros id l Hl. rewrite lookup_insert_ne; [done |].
      intros <-. congruence.
  - intros Heq conformances. unfold allocateDelayedConformance.
    rewrite Hnext, DenseMap_reserved_above; [done | | lia].
    unfold is_unsigned. lia.
Qed.

(** X6.  A generation bump made before any sequence of the calls of [Op]
    changes nothing those calls return, and leaves the session in the state
    a bump made after them would: the bump commutes with each of these
    calls. *)
Theorem bumpGeneration_commutes ops s :
  run ops (bumpGeneration s)
  = Exec_map (fun '(rets, s2) => (rets, bumpGeneration s2)) (run ops s).
Proof.
  assert (Hstep : forall op s0,
    step op (bumpGeneration s0)
    = Exec_map (fun '(r, s1) => (r, bumpGeneration s1)) (step op s0)).
  { intros op s0. destruct op; cbn; try done.
    - unfold getAlternateDecl. cbn. by destruct (_ !! _).
    - unfold setTypeResolver, getTypeResolver. cbn. by destruct (_ || _).
    - unfold allocateDelayedConformance. cbn.
      by destruct (DenseMap_reserved _).
    - unfold takeDelayedConformance. cbn. by destruct (_ !! _).
    - unfold recordImportedProtocols. by destruct protocols.
    - unfold takeImportedProtocols. cbn. by destruct (_ !! _). }
  revert s. induction ops as [| op ops IH]; intros s; [done |].
  cbn [run]. rewrite Hstep. unfold Exec_map.
  destruct (step op s) as [[r s1] | |]; cbn; try done.
  rewrite IH. unfold Exec_map.
  by destruct (run ops s1) as [[rs s2] | |].
Qed.

End DelayedConformanceProperties.

(** ** [CachedExtensions] objects in memory *)

Section ExtensionMemoryProperties.

Import ExtensionMemory.

Lemma read_Done a m o : objects m !! a = Some o -> read a m = Done o.
Proof. unfold read. by intros ->. Qed.

Lemma set_Extensions_Done a p m o :
  objects m !! a = Some o ->
  set_Extensions a p m
  = Done (mkMemory (<[a := mkObject p (Generation o)]> (objects m))
            (vectors m)).
Proof. unfold set_Extensions, read. by intros ->. Qed.

Lemma set_Generation_Done a g m o :
  objects m !! a = Some o ->
  set_Generation a g m
  = Done (mkMemory (<[a := mkObject (Extensions o) g]> (objects m))
            (vectors m)).
Proof. unfold set_Generation, read. by intros ->. Qed.

Lemma delete_vector_Done p m :
  (p <> nullptr -> is_Some (vectors m !! p)) ->
  delete_vector p m = Done (mkMemory (objects m) (freed p (vectors m))).
Proof.
  unfold delete_vector, freed. intros Hlive.
  destruct (N.eqb_spec p nullptr) as [-> | Hp]; [by destruct m |].
  by destruct (Hlive Hp) as [v ->].
Qed.

Lemma freed_lookup p q (vs : gmap N (list ptr)) v :
  freed p vs !! q = Some v <-> vs !! q = Some v /\ (p = nullptr \/ q <> p).
Proof.
  unfold freed. destruct (N.eqb_spec p nullptr) as [-> | Hp].
  - split; [intros Hv; split; [done | by left] | by intros [Hv _]].
  - rewrite lookup_delete_Some. split.
    + intros [Hne Hv]. split; [done | right; congruence].
    + intros [Hv [Hnull | Hne]]; [done |]. split; [congruence | done].
Qed.

Lemma move_assign_Done self other m o o' :
  objects m !! self = Some o ->
  objects m !! other = Some o' ->
  (Extensions o <> nullptr -> is_Some (vectors m !! Extensions o)) ->
  move_assign self other m
  = Done (mkMemory
            (<[other := mkObject nullptr 0]>
               (<[self := mkObject (Extensions o') (Generation o')]>
                  (objects m)))
            (freed (Extensions o) (vectors m))).
Proof.
  intros Hs Ho Hlive. unfold move_assign.
  rewrite (read_Done _ _ _ Hs). cbn [Exec_bind].
  rewrite (delete_vector_Done _ _ Hlive). cbn [Exec_bind].
  rewrite (read_Done other _ o') by done. cbn [Exec_bind].
  rewrite (set_Extensions_Done self _ _ o) by done.
  cbn [Exec_bind objects vectors Generation Extensions].
  destruct (decide (self = other)) as [<- | Hne].
  - assert (o' = o) as -> by congruence.
    erewrite read_Done by apply lookup_insert_eq. cbn [Exec_bind].
    erewrite set_Generation_Done by apply lookup_insert_eq.
    cbn [Exec_bind objects vectors Generation Extensions].
    erewrite set_Extensions_Done by apply lookup_insert_eq.
    cbn [Exec_bind objects vectors Generation Extensions].
    erewrite set_Generation_Done by apply lookup_insert_eq.
    cbn [Exec_bind objects vectors Generation Extensions].
    by rewrite !insert_insert_eq.
  - erewrite read_Done by (cbn; rewrite lookup_insert_ne by done; exact Ho).
    cbn [Exec_bind].
    erewrite set_Generation_Done by apply lookup_insert_eq.
    cbn [Exec_bind objects vectors Generation Extensions].
    erewrite set_Extensions_Done
      by (cbn; rewrite !lookup_insert_ne by done; exact Ho).
    cbn [Exec_bind objects vectors Generation Extensions].
    erewrite set_Generation_Done by apply lookup_insert_eq.
    cbn [Exec_bind objects vectors Generation Extensions].
    by rewrite !insert_insert_eq.
Qed.

Lemma move_construct_Done self other m o' :
  self <> other ->
  objects m !! other = Some o' ->
  move_construct self other m
  = Done (mkMemory
            (<[other := mkObject nullptr 0]>
               (<[self := mkObject (Extensions o') (Generation o')]>
                  (objects m)))
            (vectors m)).
Proof.
  intros Hne Ho. unfold move_construct.
  rewrite (read_Done _ _ _ Ho). cbn [Exec_bind].
  erewrite set_Extensions_Done
    by (cbn; rewrite lookup_insert_ne by done; exact Ho).
  cbn [Exec_bind objects vectors Generation Extensions].
  erewrite set_Generation_Done by apply lookup_insert_eq.
  cbn [Exec_bind objects vectors Generation Extensions].
  by rewrite insert_insert_eq.
Qed.

(** The memory after a move into [self] from [other], where [p] is the
    vector [self] gave up (null if [self] did not exist before). *)
Lemma transfer_owned self other m o' p :
  owned m ->
  objects m !! other = Some o' ->
  match objects m !! self with
  | Some o => Extensions o = p
  | None => p = nullptr
  end ->
  owned (mkMemory
           (<[other := mkObject nullptr 0]>
              (<[self := mkObject (Extensions o') (Generation o')]>
                 (objects m)))
           (freed p (vectors m))).
Proof.
  intros (Hlive & Huniq & Howned) Ho Hs. unfold owned. cbn [objects vectors].
  assert (Hlook : forall a oa,
    <[other := mkObject nullptr 0]>
      (<[self := mkObject (Extensions o') (Generation o')]> (objects m))
      !! a = Some oa ->
    (a = other /\ oa = mkObject nullptr 0) \/
    (a <> other /\ a = self /\
     oa = mkObject (Extensions o') (Generation o')) \/
    (a <> other /\ a <> self /\ objects m !! a = Some oa)).
  { intros a oa. destruct (decide (a = other)) as [-> | Hao].
    - rewrite lookup_insert_eq. intros [= <-]. by left.
    - rewrite lookup_insert_ne by done.
      destruct (decide (a = self)) as [-> | Has].
      + rewrite lookup_insert_eq. intros [= <-]. right. by left.
      + rewrite lookup_insert_ne by done. intros Ha. right. by right. }
  assert (Hkept : forall a oa,
    objects m !! a = Some oa -> a <> self -> Extensions oa <> nullptr ->
    p = nullptr \/ Extensions oa <> p).
  { intros a oa Ha Has Hp.
    destruct (objects m !! self) as [o |] eqn:Hself; [| by left].
    subst p. destruct (decide (Extensions o = nullptr)); [by left | right].
    intros Heq. apply Has. symmetry.
    apply (Huniq _ _ _ _ Hself Ha); congruence. }
  split; [| split].
  - intros a oa Ha Hp.
    destruct (Hlook _ _ Ha)
      as [[-> ->] | [(Hao & -> & ->) | (Hao & Has & Ha')]].
    + done.
    + cbn in *. destruct (Hlive _ _ Ho Hp) as [v Hv]. exists v.
      apply freed_lookup. split; [done |]. by apply (Hkept other o').
    + destruct (Hlive _ _ Ha' Hp) as [v Hv]. exists v.
      apply freed_lookup. split; [done |]. by apply (Hkept a oa).
  - intros a b oa ob Ha Hb Hp Heq.
    destruct (Hlook _ _ Ha)
      as [[-> ->] | [(Hao & -> & ->) | (Hao & Has & Ha')]];
    destruct (Hlook _ _ Hb)
      as [[-> ->] | [(Hbo & -> & ->) | (Hbo & Hbs & Hb')]];
      cbn in *; try done; try congruence.
    + exfalso. apply Hbo. symmetry. by apply (Huniq _ _ _ _ Ho Hb').
    + exfalso. apply Hao. symmetry.
      apply (Huniq _ _ _ _ Ho Ha'); congruence.
    + by apply (Huniq _ _ _ _ Ha' Hb').
  - intros q v Hv. apply freed_lookup in Hv as [Hv Hq].
    destruct (Howned _ _ Hv) as (Hnz & a & oa & Ha & <-).
    split; [done |].
    destruct (decide (a = self)) as [-> | Has].
    { rewrite Ha in Hs. destruct Hq; congruence. }
    destruct (decide (a = other)) as [-> | Hao].
    + assert (oa = o') as -> by congruence.
      exists self, (mkObject (Extensions o') (Generation o')).
      rewrite lookup_insert_ne, lookup_insert_eq by done. done.
    + exists a, oa. by rewrite !lookup_insert_ne.
Qed.

Lemma destroy_Done self m o :
  objects m !! self = Some o ->
  (Extensions o <> nullptr -> is_Some (vectors m !! Extensions o)) ->
  destroy self m
  = Done (mkMemory (delete self (objects m))
            (freed (Extensions o) (vectors m))).
Proof.
  intros Hs Hlive. unfold destroy.
  rewrite (read_Done _ _ _ Hs). cbn [Exec_bind].
  by rewrite (delete_vector_Done _ _ Hlive).
Qed.

Lemma destroy_owned self m o :
  owned m ->
  objects m !! self = Some o ->
  owned (mkMemory (delete self (objects m))
           (freed (Extensions o) (vectors m))).
Proof.
  intros (Hlive & Huniq & Howned) Hs. unfold owned. cbn [objects vectors].
  split; [| split].
  - intros a oa Ha Hp. apply lookup_delete_Some in Ha as [Hne Ha].
    destruct (Hlive _ _ Ha Hp) as [v Hv]. exists v.
    apply freed_lookup. split; [done |].
    destruct (decide (Extensions o = nullptr)); [by left | right].
    intros Heq. apply Hne. apply (Huniq _ _ _ _ Hs Ha); congruence.
  - intros a b oa ob Ha Hb.
    apply lookup_delete_Some in Ha as [_ Ha].
    apply lookup_delete_Some in Hb as [_ Hb].
    by apply Huniq.
  - intros q v Hv. apply freed_lookup in Hv as [Hv Hq].
    destruct (Howned _ _ Hv) as (Hnz & a & oa & Ha & <-).
    split; [done |]. exists a, oa. split; [| done].
    apply lookup_delete_Some. split; [| done].
    intros <-. assert (oa = o) as -> by congruence.
    destruct Hq; congruence.
Qed.

End ExtensionMemoryProperties.

Section ExtensionMemoryTheorems.

Import ExtensionMemory.

Lemma contents_kept c m objs p o :
  owned m ->
  objects m !! c = Some o ->
  objs !! c = Some o ->
  (Extensions o <> nullptr -> p = nullptr \/ Extensions o <> p) ->
  contents c (mkMemory objs (freed p (vectors m))) = contents c m.
Proof.
  intros Hown Hc Hc' Hp. unfold contents. cbn [objects vectors].
  rewrite Hc, Hc'.
  destruct (N.eqb_spec (Extensions o) nullptr) as [Hnull | Hnz]; [done |].
  destruct (vectors m !! Extensions o) as [v |] eqn:Hv.
  - apply freed_lookup. split; [done | by apply Hp].
  - destruct (freed p (vectors m) !! Extensions o) as [v |] eqn:Hv';
      [| done].
    apply freed_lookup in Hv' as [Hv' _]. congruence.
Qed.

(** X8.  Move assignment between two [CachedExtensions] objects of a memory
    in which every vector has exactly one owner is defined and keeps that
    property: the vector the target owned is freed, the target takes over
    the stamp and the vector of the source, the source is left with a null
    list and stamp 0, and no other object changes.  Assigning an object to
    itself frees its vector and leaves it with a null list and stamp 0. *)
Theorem move_assign_transfers_ownership self other m o o' :
  owned m ->
  objects m !! self = Some o ->
  objects m !! other = Some o' ->
  exists m',
    move_assign self other m = Done m' /\
    owned m' /\
    objects m' !! other = Some (mkObject nullptr 0) /\
    (Extensions o <> nullptr -> vectors m' !! Extensions o = None) /\
    (self <> other ->
       objects m' !! self = Some o' /\
       contents self m' = contents other m) /\
    (forall c, c <> self -> c <> other ->
       objects m' !! c = objects m !! c /\ contents c m' = contents c m).
Proof.
  intros Hown Hs Ho.
  pose proof Hown as (Hlive & Huniq & _).
  eexists. split.
  { apply (move_assign_Done _ _ _ _ _ Hs Ho). apply (Hlive _ _ Hs). }
  split.
  { apply transfer_owned; [done | done | by rewrite Hs]. }
  cbn [objects vectors]. split; [apply lookup_insert_eq |]. split.
  { intros Hp. unfold freed.
    destruct (N.eqb_spec (Extensions o) nullptr); [done |].
    apply lookup_delete_eq. }
  assert (Hdistinct : forall c oc,
    objects m !! c = Some oc -> c <> self -> Extensions oc <> nullptr ->
    Extensions o = nullptr \/ Extensions oc <> Extensions o).
  { intros c oc Hc Hcs Hp.
    destruct (decide (Extensions o = nullptr)); [by left | right].
    intros Heq. apply Hcs. symmetry.
    apply (Huniq _ _ _ _ Hs Hc); congruence. }
  split.
  - intros Hne.
    assert (Hself : <[other := mkObject nullptr 0]>
                      (<[self := mkObject (Extensions o') (Generation o')]>
                         (objects m)) !! self = Some o').
    { rewrite lookup_insert_ne, lookup_insert_eq by done. by destruct o'. }
    split; [exact Hself |].
    unfold contents at 1. cbn [objects vectors]. rewrite Hself.
    unfold contents. rewrite Ho.
    destruct (N.eqb_spec (Extensions o') nullptr) as [Hnull | Hnz]; [done |].
    destruct (vectors m !! Extensions o') as [v |] eqn:Hv.
    + apply freed_lookup. split; [done |].
      apply (Hdistinct other o'); by try done.
    + destruct (freed _ _ !! _) as [v |] eqn:Hv'; [| done].
      apply freed_lookup in Hv' as [Hv' _]. congruence.
  - intros c Hcs Hco.
    assert (Hc : <[other := mkObject nullptr 0]>
                   (<[self := mkObject (Extensions o') (Generation o')]>
                      (objects m)) !! c = objects m !! c).
    { by rewrite !lookup_insert_ne. }
    split; [exact Hc |].
    destruct (objects m !! c) as [oc |] eqn:Hoc.
    + apply (contents_kept c m _ _ oc); try done.
      intros Hp. by apply (Hdistinct c oc).
    + unfold contents. cbn [objects]. by rewrite Hc, Hoc.
Qed.

(** X9.  Relocating a [CachedExtensions] object, as a table does when it
    grows (move-construct into a new slot, then destroy the old one), is
    defined in a memory in which every vector has exactly one owner: the new
    slot holds the object as it was, the old slot is gone, no vector is
    freed or leaked, and every vector still has exactly one owner. *)
Theorem relocate_keeps_vector self other m o' :
  owned m ->
  objects m !! self = None ->
  objects m !! other = Some o' ->
  exists m1 m2,
    move_construct self other m = Done m1 /\
    destroy other m1 = Done m2 /\
    owned m1 /\
    owned m2 /\
    objects m1 !! other = Some (mkObject nullptr 0) /\
    objects m2 = <[self := o']> (delete other (objects m)) /\
    vectors m2 = vectors m /\
    contents self m2 = contents other m.
Proof.
  intros Hown Hs Ho.
  assert (Hne : self <> other) by congruence.
  assert (Hown1 : owned
    (mkMemory
       (<[other := mkObject nullptr 0]>
          (<[self := mkObject (Extensions o') (Generation o')]> (objects m)))
       (vectors m))).
  { change (vectors m) with (freed nullptr (vectors m)).
    apply transfer_owned; [done | done | by rewrite Hs]. }
  eexists _, _. split; [by apply move_construct_Done |]. split.
  { apply (destroy_Done _ _ (mkObject nullptr 0)); [apply lookup_insert_eq |].
    done. }
  split; [exact Hown1 |]. split.
  { apply (destroy_owned _ _ (mkObject nullptr 0) Hown1).
    apply lookup_insert_eq. }
  cbn [objects vectors Extensions]. split; [apply lookup_insert_eq |].
  assert (Hobjs :
    delete other
      (<[other := mkObject nullptr 0]>
         (<[self := mkObject (Extensions o') (Generation o')]> (objects m)))
    = <[self := o']> (delete other (objects m))).
  { rewrite delete_insert_eq, delete_insert_ne by done. by destruct o'. }
  split; [exact Hobjs |]. split; [done |].
  unfold contents. cbn [objects vectors]. rewrite Hobjs, Ho.
  by rewrite lookup_insert_eq.
Qed.

End ExtensionMemoryTheorems.

(** ** The identity maps *)

Section IdentityMapProperties.

Context `{Host : HostContext ASTContext}.

Implicit Types s : Implementation ASTContext.

(** X10.  Of the calls of [Op], only the two direct stores write to the
    identity map, the map of alternate declarations or the extension
    caches: across any sequence of the other calls the three maps are what
    they were and [getAlternateDecl] answers as before.  ([importDecl] and
    [importDeclReal], which are not calls of [Op], do write to the identity
    map.) *)
Theorem member_calls_keep_identity_maps ops s rets s2 :
  run ops s = Done (rets, s2) ->
  count is_store ops = 0 ->
  ImportedDecls s2 = ImportedDecls s /\
  AlternateDecls s2 = AlternateDecls s /\
  ClassExtensions s2 = ClassExtensions s /\
  (forall decl,
     fst (getAlternateDecl decl s2) = fst (getAlternateDecl decl s)).
Proof.
  intros Hrun Hstore.
  assert (Hmaps : ImportedDecls s2 = ImportedDecls s /\
                  AlternateDecls s2 = AlternateDecls s /\
                  ClassExtensions s2 = ClassExtensions s).
  { revert s rets Hrun Hstore. induction ops as [| op ops IH];
      intros s rets Hrun Hstore.
    - cbn in Hrun. by injection Hrun as <- <-.
    - apply run_cons_inv in Hrun as (r & s1 & rs & Hstep & Hrun & ->).
      rewrite count_cons in Hstore.
      pose proof (count_nonneg is_store ops).
      destruct (is_store op) eqn:Hop; [lia |].
      destruct (IH _ _ Hrun) as (-> & -> & ->); [lia |]. clear IH Hrun.
      step_inv Hstep; done. }
  destruct Hmaps as (H1 & H2 & H3).
  split; [exact H1 |]. split; [exact H2 |]. split; [exact H3 |].
  intros decl. unfold getAlternateDecl. rewrite H2.
  by destruct (AlternateDecls s !! decl).
Qed.

End IdentityMapProperties.

(** * The further properties on the concrete session *)

(** Runs the concrete session and keeps the equation of the run. *)
Ltac run_session Hrun :=
  eexists _, _;
  match goal with
  | |- ?R /\ _ =>
      assert (Hrun : R) by (vm_compute; reflexivity);
      split; [exact Hrun |]
  end.

(** X1 on the concrete session: the three lists recorded for declaration 3,
    one of them empty, come back as one list in call order. *)
Lemma importedProtocols_accumulate_witness :
  exists rets s2,
    run (Host := exampleHostContext) exampleCalls exampleSession
    = Done (rets, s2) /\
    count (is_take_protocols_of 3) exampleCalls = 0 /\
    fst (takeImportedProtocols 3 s2) = [10%N; 11%N; 12%N] /\
    ImportedProtocols (snd (takeImportedProtocols 3 s2)) !! 3%N = None.
Proof.
  run_session Hrun. split; [reflexivity |].
  destruct (importedProtocols_accumulate (Host := exampleHostContext)
              exampleCalls exampleSession _ _ 3%N Hrun eq_refl)
    as (Hall & Hgone & _).
  split; [exact Hall | exact Hgone].
Defined.

(** X2 on the concrete session: the protocols of declaration 4 were taken,
    so a further take returns the empty list and the table has no entry. *)
Lemma importedProtocols_entries_nonempty_witness :
  exists rets s,
    run (Host := exampleHostContext) exampleCalls
      (initial (mkExampleHost 0 0 []))
    = Done (rets, s) /\
    fst (takeImportedProtocols 4 s) = [] /\
    ImportedProtocols s !! 4%N = None.
Proof.
  run_session Hrun.
  destruct (importedProtocols_entries_nonempty (Host := exampleHostContext)
              (mkExampleHost 0 0 []) exampleCalls _ _ 4%N Hrun)
    as (_ & Hiff).
  split; [reflexivity |]. apply Hiff. reflexivity.
Defined.

(** X3 on the concrete session: resolver 9 is installed, so the stage is
    "checking" and installing resolver 8 fails the assertion. *)
Lemma typeResolver_lifecycle_witness :
  exists rets s,
    run (Host := exampleHostContext) exampleCalls
      (initial (mkExampleHost 0 0 []))
    = Done (rets, s) /\
    typeCheckingStage s = Checking /\
    setTypeResolver 8 s = AssertionFailure.
Proof.
  run_session Hrun.
  destruct (typeResolver_lifecycle (Host := exampleHostContext)
              (mkExampleHost 0 0 []) exampleCalls _ _ Hrun)
    as (Hstage & _ & Hassert & _).
  split.
  - apply Hstage. discriminate.
  - apply Hassert. split; discriminate.
Defined.

(** X4 on the concrete session: declarations 30 and 31 and conformance 50
    are queued in call order. *)
Lemma pending_queues_fifo_witness :
  exists rets s2,
    run (Host := exampleHostContext) exampleCalls exampleSession
    = Done (rets, s2) /\
    RegisteredExternalDecls s2 = [30%N; 31%N] /\
    DelayedProtocolConformances s2 = [50%N].
Proof.
  run_session Hrun.
  exact (pending_queues_fifo (Host := exampleHostContext)
           exampleCalls exampleSession _ _ Hrun).
Defined.

(** X7 on the concrete session: two allocations and one redemption leave
    one pending ticket, the slot of the next ticket, 2, is free, and the
    next allocation returns 2. *)
Lemma pending_tickets_invariant_witness :
  exists rets s,
    run (Host := exampleHostContext) exampleCalls
      (initial (mkExampleHost 0 0 []))
    = Done (rets, s) /\
    Z.of_nat (size (DelayedConformances s)) = 1 /\
    NextDelayedConformanceID s = 2 /\
    DelayedConformances s !! 2 = None /\
    exists s',
      allocateDelayedConformance [42%N] s = Done (2, s') /\
      size (DelayedConformances s') = 2%nat.
Proof.
  run_session Hrun.
  destruct (pending_tickets_invariant (Host := exampleHostContext)
              (mkExampleHost 0 0 []) exampleCalls _ _ Hrun)
    as (_ & Hid & _ & Hsize & Hfree & Hnext & _).
  split; [exact Hsize |]. split; [exact Hid |]. split; [exact Hfree |].
  destruct (Hnext ltac:(reflexivity) [42%N]) as (s' & Halloc & Hsize' & _).
  exists s'. split; [exact Halloc | exact Hsize'].
Defined.

Lemma exampleMemory_owned : ExtensionMemory.owned ExtensionMemory.exampleMemory.
Proof.
  unfold ExtensionMemory.owned, ExtensionMemory.exampleMemory.
  cbn [ExtensionMemory.objects ExtensionMemory.vectors].
  split; [| split].
  - intros a o Ha Hp.
    apply lookup_insert_Some in Ha as [[<- <-] | [_ Ha]].
    + cbn. rewrite lookup_singleton_eq. eauto.
    + apply lookup_singleton_Some in Ha as [<- <-]. done.
  - intros a b oa ob Ha Hb Hp Heq.
    apply lookup_insert_Some in Ha as [[<- <-] | [_ Ha]];
    apply lookup_insert_Some in Hb as [[<- <-] | [_ Hb]]; try done.
    + apply lookup_singleton_Some in Hb as [<- <-]. done.
    + apply lookup_singleton_Some in Ha as [<- <-]. done.
    + apply lookup_singleton_Some in Ha as [<- <-].
      apply lookup_singleton_Some in Hb as [<- <-]. done.
  - intros p v Hv. apply lookup_singleton_Some in Hv as [<- <-].
    split; [done |]. exists 1%N, (ExtensionMemory.mkObject 100 5).
    split; [| done]. apply lookup_insert_eq.
Qed.

(** X8 on the concrete memory: object 2 is assigned from object 1 and then
    owns the vector [[7; 8]]. *)
Lemma move_assign_transfers_ownership_witness :
  ExtensionMemory.owned ExtensionMemory.exampleMemory /\
  exists m',
    ExtensionMemory.move_assign 2 1 ExtensionMemory.exampleMemory = Done m' /\
    ExtensionMemory.owned m' /\
    ExtensionMemory.contents 2 m' = Some [7%N; 8%N] /\
    ExtensionMemory.contents 1 m' = None.
Proof.
  split; [exact exampleMemory_owned |].
  destruct (move_assign_transfers_ownership 2 1 ExtensionMemory.exampleMemory
              (ExtensionMemory.mkObject nullptr 0)
              (ExtensionMemory.mkObject 100 5)
              exampleMemory_owned eq_refl eq_refl)
    as (m' & Hdone & Hown & Hsource & _ & Htarget & _).
  exists m'. split; [exact Hdone |]. split; [exact Hown |]. split.
  - destruct (Htarget ltac:(discriminate)) as [_ Hc]. exact Hc.
  - unfold ExtensionMemory.contents. by rewrite Hsource.
Defined.

(** X9 on the concrete memory: object 1 is relocated to address 3. *)
Lemma relocate_keeps_vector_witness :
  ExtensionMemory.owned ExtensionMemory.exampleMemory /\
  exists m1 m2,
    ExtensionMemory.move_construct 3 1 ExtensionMemory.exampleMemory
    = Done m1 /\
    ExtensionMemory.destroy 1 m1 = Done m2 /\
    ExtensionMemory.owned m2 /\
    ExtensionMemory.contents 3 m2 = Some [7%N; 8%N] /\
    ExtensionMemory.vectors m2
    = ExtensionMemory.vectors ExtensionMemory.exampleMemory.
Proof.
  split; [exact exampleMemory_owned |].
  destruct (relocate_keeps_vector 3 1 ExtensionMemory.exampleMemory
              (ExtensionMemory.mkObject 100 5)
              exampleMemory_owned eq_refl eq_refl)
    as (m1 & m2 & H1 & H2 & _ & Hown & _ & _ & Hvec & Hc).
  exists m1, m2. split; [exact H1 |]. split; [exact H2 |].
  split; [exact Hown |]. split; [exact Hc | exact Hvec].
Defined.

(** X10 on the concrete session after two direct stores: the calls of the
    longer session store nothing, and afterwards foreign declaration 10 is
    still known as host declaration 1, whose alternate is still
    declaration 2. *)
Lemma member_calls_keep_identity_maps_witness :
  exists rets s2,
    run (Host := exampleHostContext) exampleCalls exampleStoredSession
    = Done (rets, s2) /\
    count is_store exampleCalls = 0 /\
    ImportedDecls s2 !! 10%N = Some 1%N /\
    AlternateDecls s2 !! 1%N = Some 2%N /\
    fst (getAlternateDecl 1 s2) = 2%N.
Proof.
  run_session Hrun. split; [reflexivity |].
  destruct (member_calls_keep_identity_maps (Host := exampleHostContext)
              exampleCalls exampleStoredSession _ _ Hrun eq_refl)
    as (H1 & H2 & _ & H4).
  split; [by rewrite H1 |]. split; [by rewrite H2 |]. by rewrite H4.
Defined.
